(** * rcflow: the editing-state core of the diagram editor

    A shallow embedding of the zustand store ([lib/store]: tool, nodes,
    edges, history log, [deleteNode]), of the canvas click dispatch
    ([components/canvas.tsx]) and of the per-node controllers
    ([components/nodes/custom-node.tsx] in its popover and context-menu
    variants, and [node-context-menu]).

    Conventions.
    - A JavaScript [number] that holds a pixel coordinate, a size, a clock
      value or an array index is an integer here ([Z]).
    - zustand's [set] merges the given fields into the state; it is written
      as a record rebuilt with the other fields kept.
    - A React callback closes over the values of the render that created
      it; those values are explicit leading arguments of the handler (named
      as in the source: [nodes], [edges], [currentTool], [data]), next to
      the store the handler runs on.
    - Reading a property of [undefined] throws a [TypeError]; operations
      that index the history array return a [Result]. *)

From Stdlib Require Import ZArith Lia.
From stdpp Require Import base option list strings pretty.

Open Scope Z_scope.

(** ** Data model *)

Module Tool.
(** [type Tool = 'select' | 'eraser' | 'rectangle' | 'circle' | 'label'] *)
Inductive t := select | eraser | rectangle | circle | label.

(** The string a tool is at run time. *)
Definition name (tool : t) : string :=
  match tool with
  | select => "select"
  | eraser => "eraser"
  | rectangle => "rectangle"
  | circle => "circle"
  | label => "label"
  end.

#[global] Instance eq_dec : EqDecision t.
Proof. solve_decision. Defined.
End Tool.

Record Position := { x : Z; y : Z }.

Inductive BorderStyle := solid | dotted.

Module NodeData.
(** [interface CustomNodeData]; an optional field is an [option].
    [nodeType] is kept as the string it is at run time: the canvas stores
    the name of the current tool in it. *)
Record t := mk {
  label : string;
  nodeType : string;
  width : option Z;
  height : option Z;
  backgroundColor : option string;
  textColor : option string;
  borderStyle : option BorderStyle
}.

(** [Partial<CustomNodeData>]: [None] is an absent key. *)
Record Partial := mkPartial {
  p_label : option string;
  p_nodeType : option string;
  p_width : option Z;
  p_height : option Z;
  p_backgroundColor : option string;
  p_textColor : option string;
  p_borderStyle : option BorderStyle
}.

(** [{ ...data, ...updates }] *)
Definition spread (data : t) (updates : Partial) : t :=
  {| label := default (label data) (p_label updates);
     nodeType := default (nodeType data) (p_nodeType updates);
     width := from_option Some (width data) (p_width updates);
     height := from_option Some (height data) (p_height updates);
     backgroundColor :=
       from_option Some (backgroundColor data) (p_backgroundColor updates);
     textColor := from_option Some (textColor data) (p_textColor updates);
     borderStyle := from_option Some (borderStyle data) (p_borderStyle updates) |}.
End NodeData.

Module Node.
(** The fields of a reactflow [Node] that the editor writes. *)
Record t := mk {
  id : string;
  type : string;
  position : Position;
  data : NodeData.t
}.

(** [{ ...node, data: d }] *)
Definition with_data (node : t) (d : NodeData.t) : t :=
  {| id := id node; type := type node; position := position node; data := d |}.
End Node.

Record EdgeStyle := { stroke : string; strokeWidth : Z }.

Module Edge.
Record t := mk {
  id : string;
  source : string;
  target : string;
  type : string;
  style : EdgeStyle
}.
End Edge.

Module Snapshot.
(** An entry of the history array: [{ nodes: Node[]; edges: Edge[] }]. *)
Record t := mk { nodes : list Node.t; edges : list Edge.t }.
End Snapshot.

(** ** JavaScript arrays and numbers *)

Module JS.
(** The relative index of [Array.prototype.slice]: a negative argument
    counts from the end, and the result is clamped to [0 .. len]. *)
Definition relative_index (len k : Z) : Z :=
  if k <? 0 then Z.max (len + k) 0 else Z.min k len.

(** [l.slice(start, end)] *)
Definition slice {A} (l : list A) (start end_ : Z) : list A :=
  let len := Z.of_nat (length l) in
  let k := relative_index len start in
  let final := relative_index len end_ in
  take (Z.to_nat (final - k)) (drop (Z.to_nat k) l).

(** [l[i]] for an integer [i]: [None] is [undefined]. *)
Definition index {A} (l : list A) (i : Z) : option A :=
  if i <? 0 then None else l !! Z.to_nat i.

(** [x || d] on an optional number: [undefined] and [0] are falsy. *)
Definition or_number (x : option Z) (d : Z) : Z :=
  match x with
  | Some v => if v =? 0 then d else v
  | None => d
  end.

(** [s.includes(pat)] *)
Fixpoint includes (s pat : string) : bool :=
  String.prefix pat s ||
  match s with
  | EmptyString => false
  | String _ rest => includes rest pat
  end.

(** [x || d] on a string: the empty string is falsy. *)
Definition or_string (x d : string) : string :=
  if decide (x = "") then d else x.

(** [x || d] on an optional string: [undefined] and the empty string are
    falsy. *)
Definition or_option_string (x : option string) (d : string) : string :=
  match x with
  | Some v => or_string v d
  | None => d
  end.
End JS.

(** What a store operation that may throw returns. *)
Inductive Result (A : Type) :=
  | Ok (a : A)
  | TypeError.
Arguments Ok {A} a.
Arguments TypeError {A}.

Definition bind {A B} (r : Result A) (f : A -> Result B) : Result B :=
  match r with
  | Ok a => f a
  | TypeError => TypeError
  end.

(** ** The store ([useAppStore]) *)

Module Store.
Record AppState := mk {
  currentTool : Tool.t;
  nodes : list Node.t;
  edges : list Edge.t;
  history : list Snapshot.t;
  historyIndex : Z;
  editingNodeId : option string;
  selectedNodes : list Node.t
}.

(** The state the store is created with. *)
Definition initial : AppState :=
  {| currentTool := Tool.select;
     nodes := [];
     edges := [];
     history := [];
     historyIndex := -1;
     editingNodeId := None;
     selectedNodes := [] |}.

Definition setCurrentTool (tool : Tool.t) (s : AppState) : AppState :=
  mk tool (nodes s) (edges s) (history s) (historyIndex s)
     (editingNodeId s) (selectedNodes s).

Definition setNodes (ns : list Node.t) (s : AppState) : AppState :=
  mk (currentTool s) ns (edges s) (history s) (historyIndex s)
     (editingNodeId s) (selectedNodes s).

Definition setEdges (es : list Edge.t) (s : AppState) : AppState :=
  mk (currentTool s) (nodes s) es (history s) (historyIndex s)
     (editingNodeId s) (selectedNodes s).

Definition setEditingNodeId (i : option string) (s : AppState) : AppState :=
  mk (currentTool s) (nodes s) (edges s) (history s) (historyIndex s)
     i (selectedNodes s).

Definition setSelectedNodes (ns : list Node.t) (s : AppState) : AppState :=
  mk (currentTool s) (nodes s) (edges s) (history s) (historyIndex s)
     (editingNodeId s) ns.

(** [set({ history: h, historyIndex: i })] *)
Definition set_history (h : list Snapshot.t) (i : Z) (s : AppState) : AppState :=
  mk (currentTool s) (nodes s) (edges s) h i
     (editingNodeId s) (selectedNodes s).

(** [set({ nodes: ns, edges: es })] *)
Definition set_nodes_edges (ns : list Node.t) (es : list Edge.t)
    (s : AppState) : AppState :=
  mk (currentTool s) ns es (history s) (historyIndex s)
     (editingNodeId s) (selectedNodes s).

(** [set({ nodes: ns, edges: es, historyIndex: i })] *)
Definition set_document (ns : list Node.t) (es : list Edge.t) (i : Z)
    (s : AppState) : AppState :=
  mk (currentTool s) ns es (history s) i
     (editingNodeId s) (selectedNodes s).

Definition saveToHistory (s : AppState) : AppState :=
  let newHistory := JS.slice (history s) 0 (historyIndex s + 1) in
  let newHistory := newHistory ++ [Snapshot.mk (nodes s) (edges s)] in
  set_history newHistory (Z.of_nat (length newHistory) - 1) s.

Definition undo (s : AppState) : Result AppState :=
  if 0 <? historyIndex s then
    match JS.index (history s) (historyIndex s - 1) with
    | Some prevState =>
        Ok (set_document (Snapshot.nodes prevState) (Snapshot.edges prevState)
              (historyIndex s - 1) s)
    | None => TypeError
    end
  else Ok s.

Definition redo (s : AppState) : Result AppState :=
  if historyIndex s <? Z.of_nat (length (history s)) - 1 then
    match JS.index (history s) (historyIndex s + 1) with
    | Some nextState =>
        Ok (set_document (Snapshot.nodes nextState) (Snapshot.edges nextState)
              (historyIndex s + 1) s)
    | None => TypeError
    end
  else Ok s.

Definition deleteNode (nodeId : string) (s : AppState) : AppState :=
  let updatedNodes := filter (λ node, Node.id node ≠ nodeId) (nodes s) in
  let updatedEdges :=
    filter (λ edge, Edge.source edge ≠ nodeId ∧ Edge.target edge ≠ nodeId)
           (edges s) in
  saveToHistory (set_nodes_edges updatedNodes updatedEdges s).
End Store.

(** ** Events of the rendering layer *)

(** The fields of a DOM [MouseEvent] the handlers read. *)
Record MouseEvent := { clientX : Z; clientY : Z }.

(** The fields of a React [KeyboardEvent] the handlers read. *)
Record KeyboardEvent := { key : string; shiftKey : bool }.

(** The fields of [getBoundingClientRect()] the canvas reads. *)
Record DOMRect := { left : Z; top : Z }.

(** The four resize handles a node component renders; [corner_name] is
    the string each passes to [handleResizeStart]. *)
Inductive Corner := TopLeft | TopRight | BottomLeft | BottomRight.

Definition corner_name (c : Corner) : string :=
  match c with
  | TopLeft => "top-left"
  | TopRight => "top-right"
  | BottomLeft => "bottom-left"
  | BottomRight => "bottom-right"
  end.

(** The [data] prop of the node component [id]: the rendering layer hands
    each node component the [data] of its node in the [nodes] it is given. *)
Definition props_data (id : string) (nodes : list Node.t) : option NodeData.t :=
  (λ p, Node.data p.2) <$> list_find (λ n, Node.id n = id) nodes.

(** The string a border style is at run time. *)
Definition border_name (b : BorderStyle) : string :=
  match b with
  | solid => "solid"
  | dotted => "dotted"
  end.

(** [data.borderStyle || 'solid'] *)
Definition border_or_solid (b : option BorderStyle) : string :=
  match b with
  | Some b => border_name b
  | None => "solid"
  end.

(** The style object [getNodeStyle] returns. *)
Module Style.
Record t := mk {
  width : Z;
  height : Z;
  position : string;
  borderRadius : string;
  background : string;
  display : string;
  alignItems : string;
  justifyContent : string;
  fontSize : string;
  fontWeight : string;
  color : string;
  cursor : string;
  transition : string;
  border : string
}.
End Style.

(** [circleSize] of [getNodeStyle], the same in every variant of the node
    component: [None] is [null]. *)
Definition circleSize (data : NodeData.t) : option Z :=
  if decide (NodeData.nodeType data = "circle")
  then Some (Z.min (JS.or_number (NodeData.width data) 80)
                   (JS.or_number (NodeData.height data) 80))
  else None.

(** ** The canvas ([FlowCanvas]) *)

Module Canvas.
Import Store.

(** [bounds] is [reactFlowWrapper.current?.getBoundingClientRect()]
    ([None] when the wrapper is not mounted), [project] is reactflow's
    screen-to-canvas projector and [now] is [Date.now()]. *)
Definition onPaneClick (currentTool : Tool.t) (nodes : list Node.t)
    (bounds : option DOMRect) (project : Position -> Position) (now : Z)
    (event : MouseEvent) (s : AppState) : AppState :=
  if decide (currentTool = Tool.select) then s
  else
    match bounds with
    | None => s
    | Some bounds =>
        let position :=
          project {| x := clientX event - left bounds;
                     y := clientY event - top bounds |} in
        let newNode :=
          Node.mk ("node-" +:+ pretty now) "custom" position
            (NodeData.mk ""
               (if decide (currentTool = Tool.label) then "label"
                else Tool.name currentTool)
               (Some (if decide (currentTool = Tool.label) then 100 else 120))
               (Some (if decide (currentTool = Tool.label) then 40 else 80))
               None None None) in
        setCurrentTool Tool.select
          (saveToHistory (setNodes (nodes ++ [newNode]) s))
    end.

Definition onNodeClick (currentTool : Tool.t) (nodes : list Node.t)
    (edges : list Edge.t) (node : Node.t) (s : AppState) : AppState :=
  if decide (currentTool = Tool.eraser) then
    saveToHistory
      (setEdges
         (filter (λ e, Edge.source e ≠ Node.id node ∧ Edge.target e ≠ Node.id node)
                 edges)
         (setNodes (filter (λ n, Node.id n ≠ Node.id node) nodes) s))
  else s.

Definition onEdgeClick (currentTool : Tool.t) (edges : list Edge.t)
    (edge : Edge.t) (s : AppState) : AppState :=
  if decide (currentTool = Tool.eraser) then
    saveToHistory (setEdges (filter (λ e, Edge.id e ≠ Edge.id edge) edges) s)
  else s.

Definition onNodeDragStop (s : AppState) : AppState := saveToHistory s.

(** [params.nodes] of the selection-change event. *)
Definition onSelectionChange (params_nodes : list Node.t) (s : AppState) : AppState :=
  setSelectedNodes params_nodes s.

(** The value of [nodesDraggable], [nodesConnectable], [elementsSelectable],
    [panOnDrag] and [zoomOnScroll]. *)
Definition interactive (currentTool : Tool.t) : bool :=
  bool_decide (currentTool = Tool.select).
End Canvas.

(** ** The node controller, popover variant ([CustomNode] with the inline
    options popup) *)

Module PopoverNode.
Import Store.

Inductive ColorTarget := background | text.

(** The component's [useState] cells. *)
Record Local := mkLocal {
  isEditing : bool;
  label : string;
  showPopup : bool;
  showColorPicker : option ColorTarget;
  showBorderPicker : bool;
  isResizing : bool
}.

Definition setShowPopup (b : bool) (l : Local) : Local :=
  mkLocal (isEditing l) (label l) b (showColorPicker l) (showBorderPicker l)
          (isResizing l).

Definition setIsResizing (b : bool) (l : Local) : Local :=
  mkLocal (isEditing l) (label l) (showPopup l) (showColorPicker l)
          (showBorderPicker l) b.

Definition updateNodeData (id : string) (nodes : list Node.t)
    (updates : NodeData.Partial) (s : AppState) : AppState :=
  let updatedNodes :=
    (λ node, if decide (Node.id node = id)
             then Node.with_data node (NodeData.spread (Node.data node) updates)
             else node) <$> nodes in
  saveToHistory (setNodes updatedNodes s).

Definition handleDelete (id : string) (nodes : list Node.t)
    (s : AppState) (l : Local) : AppState * Local :=
  let updatedNodes := filter (λ node, Node.id node ≠ id) nodes in
  (saveToHistory (setNodes updatedNodes s), setShowPopup false l).

(** What [handleMouseMove] closes over: the arguments and locals of the
    [handleResizeStart] call that created it, and the [data] and [nodes]
    (through [updateNodeData]) of the render that created that
    [handleResizeStart]. *)
Record ResizeClosure := mkClosure {
  handle : string;
  startX : Z;
  startY : Z;
  startWidth : Z;
  startHeight : Z;
  data : NodeData.t;
  nodes : list Node.t
}.

Definition handleResizeStart (data : NodeData.t) (nodes : list Node.t)
    (e : MouseEvent) (handle : string) (l : Local) : ResizeClosure * Local :=
  (mkClosure handle (clientX e) (clientY e)
     (JS.or_number (NodeData.width data) 120)
     (JS.or_number (NodeData.height data) 80)
     data nodes,
   setIsResizing true l).

Definition handleMouseMove (id : string) (c : ResizeClosure) (e : MouseEvent)
    (s : AppState) : AppState :=
  let deltaX := clientX e - startX c in
  let deltaY := clientY e - startY c in
  let '(newWidth, newHeight) :=
    if decide (handle c = "bottom-right") then
      (Z.max 60 (startWidth c + deltaX), Z.max 40 (startHeight c + deltaY))
    else if decide (handle c = "bottom-left") then
      (Z.max 60 (startWidth c - deltaX), Z.max 40 (startHeight c + deltaY))
    else if decide (handle c = "top-right") then
      (Z.max 60 (startWidth c + deltaX), Z.max 40 (startHeight c - deltaY))
    else if decide (handle c = "top-left") then
      (Z.max 60 (startWidth c - deltaX), Z.max 40 (startHeight c - deltaY))
    else (startWidth c, startHeight c) in
  let '(newWidth, newHeight) :=
    if decide (NodeData.nodeType (data c) = "circle") then
      let size := Z.min newWidth newHeight in (size, size)
    else (newWidth, newHeight) in
  updateNodeData id (nodes c)
    (NodeData.mkPartial None None (Some newWidth) (Some newHeight) None None None)
    s.

Definition handleMouseUp (l : Local) : Local := setIsResizing false l.

(** The store after each [mousemove] of one drag: the listener attached
    by [handleResizeStart] stays the same closure until [mouseup]. *)
Fixpoint drag (id : string) (c : ResizeClosure) (moves : list MouseEvent)
    (s : AppState) : list AppState :=
  match moves with
  | [] => []
  | e :: moves =>
      let s' := handleMouseMove id c e s in
      s' :: drag id c moves s'
  end.

Definition setIsEditing (b : bool) (l : Local) : Local :=
  mkLocal b (label l) (showPopup l) (showColorPicker l) (showBorderPicker l)
          (isResizing l).

Definition setLabel (v : string) (l : Local) : Local :=
  mkLocal (isEditing l) v (showPopup l) (showColorPicker l) (showBorderPicker l)
          (isResizing l).

Definition setShowColorPicker (c : option ColorTarget) (l : Local) : Local :=
  mkLocal (isEditing l) (label l) (showPopup l) c (showBorderPicker l)
          (isResizing l).

Definition setShowBorderPicker (b : bool) (l : Local) : Local :=
  mkLocal (isEditing l) (label l) (showPopup l) (showColorPicker l) b
          (isResizing l).

(** [isTextEditing] is [editingNodeId === id] of the render. *)
Definition isTextEditing (id : string) (editingNodeId : option string) : bool :=
  bool_decide (editingNodeId = Some id).

Definition handleClick (isTextEditing : bool) (l : Local) : Local :=
  if negb isTextEditing then setShowPopup (negb (showPopup l)) l else l.

Definition handleDoubleClick (id : string) (s : AppState) (l : Local)
    : AppState * Local :=
  (setEditingNodeId (Some id) s, setShowPopup false (setIsEditing true l)).

Definition handleTextChange (value : string) (l : Local) : Local :=
  setLabel value l.

(** [label] is the buffer of the render ([Local.label]). *)
Definition handleTextSubmit (id : string) (label : string) (nodes : list Node.t)
    (s : AppState) (l : Local) : AppState * Local :=
  let updatedNodes :=
    (λ node, if decide (Node.id node = id)
             then Node.with_data node
                    (NodeData.spread (Node.data node)
                       (NodeData.mkPartial (Some label) None None None None None None))
             else node) <$> nodes in
  (saveToHistory (setEditingNodeId None (setNodes updatedNodes s)),
   setIsEditing false l).

Definition handleKeyDown (id : string) (label : string) (nodes : list Node.t)
    (data : NodeData.t) (e : KeyboardEvent) (s : AppState) (l : Local)
    : AppState * Local :=
  if bool_decide (key e = "Enter") && negb (shiftKey e) then
    handleTextSubmit id label nodes s l
  else if bool_decide (key e = "Escape") then
    (setEditingNodeId None s,
     setLabel (JS.or_string (NodeData.label data) "") (setIsEditing false l))
  else (s, l).

Definition handleBlur (id : string) (label : string) (nodes : list Node.t)
    (s : AppState) (l : Local) : AppState * Local :=
  handleTextSubmit id label nodes s l.

Definition handleColorChange (id : string) (nodes : list Node.t)
    (color : string) (type : ColorTarget) (s : AppState) (l : Local)
    : AppState * Local :=
  let s' :=
    match type with
    | background =>
        updateNodeData id nodes
          (NodeData.mkPartial None None None None (Some color) None None) s
    | text =>
        updateNodeData id nodes
          (NodeData.mkPartial None None None None None (Some color) None) s
    end in
  (s', setShowColorPicker None l).

Definition handleBorderChange (id : string) (nodes : list Node.t)
    (borderStyle : BorderStyle) (s : AppState) (l : Local) : AppState * Local :=
  (updateNodeData id nodes
     (NodeData.mkPartial None None None None None None (Some borderStyle)) s,
   setShowBorderPicker false l).

(** [isDarkMode] is whether the document element has the class [dark]. *)
Definition getNodeStyle (data : NodeData.t) (selected isDarkMode : bool) : Style.t :=
  let circleSize := circleSize data in
  {| Style.width :=
       JS.or_number circleSize (JS.or_number (NodeData.width data) 120);
     Style.height :=
       JS.or_number circleSize (JS.or_number (NodeData.height data) 80);
     Style.position := "relative";
     Style.borderRadius :=
       if decide (NodeData.nodeType data = "circle") then "50%" else "8px";
     Style.background :=
       JS.or_option_string (NodeData.backgroundColor data)
         (if decide (NodeData.nodeType data = "label") then "transparent"
          else if isDarkMode then "#1a1a1a" else "white");
     Style.display := "flex";
     Style.alignItems := "center";
     Style.justifyContent := "center";
     Style.fontSize := "14px";
     Style.fontWeight := "500";
     Style.color :=
       JS.or_option_string (NodeData.textColor data)
         (if isDarkMode then "#ffffff" else "#1f2937");
     Style.cursor := "pointer";
     Style.transition := "all 0.2s ease";
     Style.border :=
       if selected then "2px solid #3b82f6"
       else "1px " +:+ border_or_solid (NodeData.borderStyle data) +:+ " "
              +:+ (if isDarkMode then "#404040" else "#e5e7eb") |}.
End PopoverNode.

(** ** The node controller, context-menu variant ([CustomNode] with
    [NodeContextMenu]) *)

Module ContextMenuNode.
Import Store.

Record Size := { width : Z; height : Z }.

(** The component's [useState] cells. *)
Record Local := mkLocal {
  isEditing : bool;
  label : string;
  isResizing : bool;
  resizeHandle : option string;
  startPos : Position;
  startSize : Size;
  contextMenu : option Position
}.

Definition closeContextMenu (l : Local) : Local :=
  mkLocal (isEditing l) (label l) (isResizing l) (resizeHandle l)
          (startPos l) (startSize l) None.

Definition updateNodeData (id : string) (nodes : list Node.t)
    (updates : NodeData.Partial) (s : AppState) : AppState :=
  let updatedNodes :=
    (λ node, if decide (Node.id node = id)
             then Node.with_data node (NodeData.spread (Node.data node) updates)
             else node) <$> nodes in
  saveToHistory (setNodes updatedNodes s).

Definition handleResizeStart (data : NodeData.t) (e : MouseEvent)
    (handle : string) (l : Local) : Local :=
  mkLocal (isEditing l) (label l) true (Some handle)
          {| x := clientX e; y := clientY e |}
          {| width := JS.or_number (NodeData.width data) 120;
             height := JS.or_number (NodeData.height data) 80 |}
          (contextMenu l).

Definition handleResizeMove (id : string) (data : NodeData.t)
    (nodes : list Node.t) (l : Local) (e : MouseEvent)
    (s : AppState) : AppState :=
  match resizeHandle l with
  | None => s
  | Some resizeHandle =>
      if negb (isResizing l) || bool_decide (resizeHandle = "") then s
      else
        let deltaX := clientX e - x (startPos l) in
        let deltaY := clientY e - y (startPos l) in
        let newWidth := width (startSize l) in
        let newHeight := height (startSize l) in
        let newWidth :=
          if JS.includes resizeHandle "right"
          then Z.max 50 (width (startSize l) + deltaX) else newWidth in
        let newWidth :=
          if JS.includes resizeHandle "left"
          then Z.max 50 (width (startSize l) - deltaX) else newWidth in
        let newHeight :=
          if JS.includes resizeHandle "bottom"
          then Z.max 30 (height (startSize l) + deltaY) else newHeight in
        let newHeight :=
          if JS.includes resizeHandle "top"
          then Z.max 30 (height (startSize l) - deltaY) else newHeight in
        let '(newWidth, newHeight) :=
          if decide (NodeData.nodeType data = "circle") then
            let size := Z.min newWidth newHeight in (size, size)
          else (newWidth, newHeight) in
        updateNodeData id nodes
          (NodeData.mkPartial None None (Some newWidth) (Some newHeight)
             None None None)
          s
  end.

Definition handleResizeEnd (l : Local) : Local :=
  mkLocal (isEditing l) (label l) false None (startPos l) (startSize l)
          (contextMenu l).

(** The store after each [mousemove] of one drag. The effect re-attaches
    the listener whenever [handleResizeMove] changes, so each event runs
    the handler of the latest render: its [data] is the node's in the
    store and its [nodes] are the store's. A node that is no longer in
    the store has no component, hence no listener. *)
Fixpoint drag (id : string) (l : Local) (moves : list MouseEvent)
    (s : AppState) : list AppState :=
  match moves with
  | [] => []
  | e :: moves =>
      let s' :=
        match props_data id (Store.nodes s) with
        | Some data => handleResizeMove id data (Store.nodes s) l e s
        | None => s
        end in
      s' :: drag id l moves s'
  end.

Definition handleDoubleClick (id : string) (s : AppState) (l : Local)
    : AppState * Local :=
  (setEditingNodeId (Some id) s,
   mkLocal true (label l) (isResizing l) (resizeHandle l) (startPos l)
           (startSize l) (contextMenu l)).

Definition handleTextChange (value : string) (l : Local) : Local :=
  mkLocal (isEditing l) value (isResizing l) (resizeHandle l) (startPos l)
          (startSize l) (contextMenu l).

Definition handleTextSubmit (id : string) (label : string) (nodes : list Node.t)
    (s : AppState) (l : Local) : AppState * Local :=
  let updatedNodes :=
    (λ node, if decide (Node.id node = id)
             then Node.with_data node
                    (NodeData.spread (Node.data node)
                       (NodeData.mkPartial (Some label) None None None None None None))
             else node) <$> nodes in
  (saveToHistory (setEditingNodeId None (setNodes updatedNodes s)),
   mkLocal false (ContextMenuNode.label l) (isResizing l) (resizeHandle l)
           (startPos l) (startSize l) (contextMenu l)).

Definition handleKeyDown (id : string) (label : string) (nodes : list Node.t)
    (data : NodeData.t) (e : KeyboardEvent) (s : AppState) (l : Local)
    : AppState * Local :=
  if bool_decide (key e = "Enter") && negb (shiftKey e) then
    handleTextSubmit id label nodes s l
  else if bool_decide (key e = "Escape") then
    (setEditingNodeId None s,
     mkLocal false (JS.or_string (NodeData.label data) "") (isResizing l)
             (resizeHandle l) (startPos l) (startSize l) (contextMenu l))
  else (s, l).

Definition handleBlur (id : string) (label : string) (nodes : list Node.t)
    (s : AppState) (l : Local) : AppState * Local :=
  handleTextSubmit id label nodes s l.

Definition handleContextMenu (e : MouseEvent) (l : Local) : Local :=
  mkLocal (isEditing l) (label l) (isResizing l) (resizeHandle l) (startPos l)
          (startSize l) (Some {| x := clientX e; y := clientY e |}).

(** [baseStyle] of [getNodeStyle]. *)
Definition getNodeStyle (data : NodeData.t) (selected : bool) : Style.t :=
  let circleSize := circleSize data in
  {| Style.width :=
       JS.or_number circleSize (JS.or_number (NodeData.width data) 120);
     Style.height :=
       JS.or_number circleSize (JS.or_number (NodeData.height data) 80);
     Style.position := "relative";
     Style.borderRadius :=
       if decide (NodeData.nodeType data = "circle") then "50%" else "8px";
     Style.background :=
       JS.or_option_string (NodeData.backgroundColor data)
         (if decide (NodeData.nodeType data = "label") then "transparent"
          else "white");
     Style.display := "flex";
     Style.alignItems := "center";
     Style.justifyContent := "center";
     Style.fontSize := "14px";
     Style.fontWeight := "500";
     Style.color := JS.or_option_string (NodeData.textColor data) "#1f2937";
     Style.cursor := "pointer";
     Style.transition := "all 0.2s ease";
     Style.border :=
       if selected then "2px solid #3b82f6"
       else "1px " +:+ border_or_solid (NodeData.borderStyle data) +:+ " #e5e7eb" |}.

(** The [style] prop of the node's element: [getNodeStyle()] spread, with
    [border], [background] and [color] given again for the color mode. *)
Definition element_style (data : NodeData.t) (selected isDarkMode : bool) : Style.t :=
  let base := getNodeStyle data selected in
  {| Style.width := Style.width base;
     Style.height := Style.height base;
     Style.position := Style.position base;
     Style.borderRadius := Style.borderRadius base;
     Style.background :=
       JS.or_option_string (NodeData.backgroundColor data)
         (if decide (NodeData.nodeType data = "label") then "transparent"
          else if isDarkMode then "#1a1a1a" else "white");
     Style.display := Style.display base;
     Style.alignItems := Style.alignItems base;
     Style.justifyContent := Style.justifyContent base;
     Style.fontSize := Style.fontSize base;
     Style.fontWeight := Style.fontWeight base;
     Style.color :=
       JS.or_option_string (NodeData.textColor data)
         (if isDarkMode then "#ffffff" else "#1f2937");
     Style.cursor := Style.cursor base;
     Style.transition := Style.transition base;
     Style.border :=
       if selected then "2px solid #3b82f6"
       else if isDarkMode
            then "1px " +:+ border_or_solid (NodeData.borderStyle data) +:+ " #404040"
            else "1px " +:+ border_or_solid (NodeData.borderStyle data) +:+ " #e5e7eb" |}.
End ContextMenuNode.

(** ** The context menu ([NodeContextMenu]) *)

Module NodeContextMenu.
Import Store.

(** [onClose] is the parent's [closeContextMenu]. *)
Definition deleteNode (nodeId : string) (nodes : list Node.t)
    (onClose : ContextMenuNode.Local -> ContextMenuNode.Local)
    (s : AppState) (l : ContextMenuNode.Local)
    : AppState * ContextMenuNode.Local :=
  let updatedNodes := filter (λ node, Node.id node ≠ nodeId) nodes in
  (saveToHistory (setNodes updatedNodes s), onClose l).
End NodeContextMenu.

(** ** The history log over a heap of objects

    [Store] treats arrays and objects as values, which is what the store's
    own code observes: every update builds new arrays and objects. What a
    snapshot shares with the live document is a matter of references; this
    module states [saveToHistory], [undo] and [redo] over a heap in which
    node objects, edge objects and arrays have addresses. The history array
    and its entries are never written in place and stay values. *)

Module Ref.
(** Addresses. *)
Abbreviation loc := nat (only parsing).

Inductive Obj :=
  | NodeObj (n : Node.t)
  | EdgeObj (e : Edge.t)
  | ArrayObj (elems : list loc).

(** The object at address [a] of heap [h] is [h !! a]. *)
Abbreviation Heap := (list Obj) (only parsing).

Definition alloc (o : Obj) (h : Heap) : loc * Heap := (length h, h ++ [o]).

(** An in-place write: any mutating array method or index assignment
    on the array at an address ([WriteArray], with the elements it
    leaves), or an assignment to fields of the node or edge object at an
    address ([WriteNode], [WriteEdge], with the value it leaves). *)
Inductive Mutation :=
  | WriteArray (a : loc) (elems : list loc)
  | WriteNode (a : loc) (n : Node.t)
  | WriteEdge (a : loc) (e : Edge.t).

Definition address (m : Mutation) : loc :=
  match m with
  | WriteArray a _ | WriteNode a _ | WriteEdge a _ => a
  end.

(** A write keeps the kind of the object it writes; one aimed at an
    object of another kind is not a write the language has. *)
Definition mutate (m : Mutation) (h : Heap) : Heap :=
  match m, h !! address m with
  | WriteArray a elems, Some (ArrayObj _) => <[a := ArrayObj elems]> h
  | WriteNode a n, Some (NodeObj _) => <[a := NodeObj n]> h
  | WriteEdge a e, Some (EdgeObj _) => <[a := EdgeObj e]> h
  | _, _ => h
  end.

(** A sequence of in-place writes, first to last. *)
Definition mutate_all (ms : list Mutation) (h : Heap) : Heap :=
  foldl (λ h m, mutate m h) h ms.

(** [{ nodes, edges }] of a history entry: two array references. *)
Record Entry := { e_nodes : loc; e_edges : loc }.

Record AppState := mk {
  heap : Heap;
  nodes : loc;
  edges : loc;
  history : list Entry;
  historyIndex : Z
}.

Definition array_elems (h : Heap) (a : loc) : option (list loc) :=
  match h !! a with
  | Some (ArrayObj elems) => Some elems
  | _ => None
  end.

Definition node_at (h : Heap) (a : loc) : option Node.t :=
  match h !! a with
  | Some (NodeObj n) => Some n
  | _ => None
  end.

Definition edge_at (h : Heap) (a : loc) : option Edge.t :=
  match h !! a with
  | Some (EdgeObj e) => Some e
  | _ => None
  end.

(** The value of the node array at [a]. *)
Definition read_nodes (h : Heap) (a : loc) : option (list Node.t) :=
  array_elems h a ≫= mapM (node_at h).

Definition read_edges (h : Heap) (a : loc) : option (list Edge.t) :=
  array_elems h a ≫= mapM (edge_at h).

(** The value of a history entry. *)
Definition read_entry (h : Heap) (r : Entry) : option Snapshot.t :=
  ns ← read_nodes h (e_nodes r);
  es ← read_edges h (e_edges r);
  Some (Snapshot.mk ns es).

(** [{ nodes: [...nodes], edges: [...edges] }] allocates two arrays that
    hold the elements of the live ones. *)
Definition saveToHistory (s : AppState) : option AppState :=
  ns ← array_elems (heap s) (nodes s);
  es ← array_elems (heap s) (edges s);
  let '(a_nodes, h1) := alloc (ArrayObj ns) (heap s) in
  let '(a_edges, h2) := alloc (ArrayObj es) h1 in
  let newHistory := JS.slice (history s) 0 (historyIndex s + 1) in
  let newHistory := newHistory ++ [ {| e_nodes := a_nodes; e_edges := a_edges |} ] in
  Some (mk h2 (nodes s) (edges s) newHistory (Z.of_nat (length newHistory) - 1)).

(** [nodes: prevState.nodes] makes the entry's array the live one. *)
Definition undo (s : AppState) : Result AppState :=
  if 0 <? historyIndex s then
    match JS.index (history s) (historyIndex s - 1) with
    | Some prevState =>
        Ok (mk (heap s) (e_nodes prevState) (e_edges prevState) (history s)
               (historyIndex s - 1))
    | None => TypeError
    end
  else Ok s.

Definition redo (s : AppState) : Result AppState :=
  if historyIndex s <? Z.of_nat (length (history s)) - 1 then
    match JS.index (history s) (historyIndex s + 1) with
    | Some nextState =>
        Ok (mk (heap s) (e_nodes nextState) (e_edges nextState) (history s)
               (historyIndex s + 1))
    | None => TypeError
    end
  else Ok s.

(** The addresses the live document reaches: its two arrays and their
    elements. *)
Definition live (s : AppState) (a : loc) : Prop :=
  a = nodes s ∨ a = edges s ∨
  (∃ elems, array_elems (heap s) (nodes s) = Some elems ∧ a ∈ elems) ∨
  (∃ elems, array_elems (heap s) (edges s) = Some elems ∧ a ∈ elems).

(** The heap state [r] holds the document and the log of the store [s]:
    its live arrays and its entries read as the values [s] has. *)
Definition represents (r : AppState) (s : Store.AppState) : Prop :=
  read_nodes (heap r) (nodes r) = Some (Store.nodes s) ∧
  read_edges (heap r) (edges r) = Some (Store.edges s) ∧
  mapM (read_entry (heap r)) (history r) = Some (Store.history s) ∧
  historyIndex r = Store.historyIndex s.

(** No in-place write to the live document changes the value of the
    history entry [r]. *)
Definition isolated (s : AppState) (r : Entry) : Prop :=
  ∀ m, live s (address m) →
       read_entry (mutate m (heap s)) r = read_entry (heap s) r.
End Ref.

(** ** Sequences of history calls *)

Module History.
Import Store.

Inductive Call := SaveToHistory | Undo | Redo.

Definition call (c : Call) (s : AppState) : Result AppState :=
  match c with
  | SaveToHistory => Ok (saveToHistory s)
  | Undo => undo s
  | Redo => redo s
  end.

(** The outcome of each call of a sequence, in order. A call that throws
    has written nothing: the next call runs on the same state. *)
Fixpoint run (calls : list Call) (s : AppState) : list (Result AppState) :=
  match calls with
  | [] => []
  | c :: calls =>
      let r := call c s in
      r :: run calls (match r with Ok s' => s' | TypeError => s end)
  end.

(** The cursor invariant of the history log. *)
Definition cursor_invariant (s : AppState) : Prop :=
  (history s = [] ∧ historyIndex s = -1) ∨
  (0 ≤ historyIndex s < Z.of_nat (length (history s))).

(** The state a sequence of calls leaves. *)
Definition exec (calls : list Call) (s : AppState) : AppState :=
  foldl (λ s c, match call c s with Ok s' => s' | TypeError => s end) s calls.

(** The live document is the entry under the cursor. *)
Definition committed (s : AppState) : Prop :=
  JS.index (history s) (historyIndex s) = Some (Snapshot.mk (nodes s) (edges s)).

(** The log is empty with cursor -1, or the cursor is in range and the
    live document is the entry under it. *)
Definition settled (s : AppState) : Prop :=
  (history s = [] ∧ historyIndex s = -1) ∨
  (0 ≤ historyIndex s < Z.of_nat (length (history s)) ∧ committed s).
End History.

(** ** Integrity of the document *)

(** No two live nodes share an id. *)
Definition ids_unique (s : Store.AppState) : Prop :=
  NoDup (Node.id <$> Store.nodes s).

(** Every edge starts and ends at a live node. *)
Definition edges_valid (s : Store.AppState) : Prop :=
  ∀ e, e ∈ Store.edges s →
       (∃ n, n ∈ Store.nodes s ∧ Node.id n = Edge.source e) ∧
       (∃ n, n ∈ Store.nodes s ∧ Node.id n = Edge.target e).

(** ** The aspect lock of a circle *)

(** The store holds a node [id], and every node [id] in it has a width and
    a height that are the same number. *)
Definition aspect_locked (id : string) (s : Store.AppState) : Prop :=
  (∃ n, n ∈ Store.nodes s ∧ Node.id n = id) ∧
  ∀ n, n ∈ Store.nodes s → Node.id n = id →
       ∃ size, NodeData.width (Node.data n) = Some size ∧
               NodeData.height (Node.data n) = Some size.

(** The function [updateNodeData] maps over the nodes, and the update a
    circle's resize passes to it. *)
Definition update_node (id : string) (updates : NodeData.Partial)
    (node : Node.t) : Node.t :=
  if decide (Node.id node = id)
  then Node.with_data node (NodeData.spread (Node.data node) updates)
  else node.

Definition square_update (size : Z) : NodeData.Partial :=
  NodeData.mkPartial None None (Some size) (Some size) None None None.

(** The update a resize passes to [updateNodeData]. *)
Definition size_update (width height : Z) : NodeData.Partial :=
  NodeData.mkPartial None None (Some width) (Some height) None None None.

(** ** The size a resize writes

    The width and the height a pointer move of a resize computes before
    the axes of a circle are unified, as the specification words them:
    from the start size and the cumulative pointer delta, with a sign
    that depends on the corner (the left handles subtract the horizontal
    delta, the top handles subtract the vertical one), clamped to a floor.
    They are compared with what the two controllers write. *)
Definition new_width (floor : Z) (h : Corner) (startWidth deltaX : Z) : Z :=
  Z.max floor
    match h with
    | TopLeft | BottomLeft => startWidth - deltaX
    | TopRight | BottomRight => startWidth + deltaX
    end.

Definition new_height (floor : Z) (h : Corner) (startHeight deltaY : Z) : Z :=
  Z.max floor
    match h with
    | TopLeft | TopRight => startHeight - deltaY
    | BottomLeft | BottomRight => startHeight + deltaY
    end.

(** The store [s'] holds a node [id], and every node [id] in it has as
    width and as height [min(newWidth, newHeight)], the new width and
    height being those of the move [e] of a resize that started at [e0] on
    the handle [h] of a node with the data [data], with the floors
    [floorWidth] and [floorHeight]. *)
Definition unified_to_min (id : string) (floorWidth floorHeight : Z) (h : Corner)
    (data : NodeData.t) (e0 e : MouseEvent) (s' : Store.AppState) : Prop :=
  let newWidth :=
    new_width floorWidth h (JS.or_number (NodeData.width data) 120)
      (clientX e - clientX e0) in
  let newHeight :=
    new_height floorHeight h (JS.or_number (NodeData.height data) 80)
      (clientY e - clientY e0) in
  (∃ n, n ∈ Store.nodes s' ∧ Node.id n = id) ∧
  ∀ n, n ∈ Store.nodes s' → Node.id n = id →
       NodeData.width (Node.data n) = Some (Z.min newWidth newHeight) ∧
       NodeData.height (Node.data n) = Some (Z.min newWidth newHeight).

(** Each state of [states] is the one before it ([s] for the first) after
    a [setNodes] and a [saveToHistory]. *)
Fixpoint commits_from (s : Store.AppState) (states : list Store.AppState) : Prop :=
  match states with
  | [] => True
  | t :: states =>
      (∃ ns, t = Store.saveToHistory (Store.setNodes ns s)) ∧ commits_from t states
  end.

(** The snapshot a commit of the state [s] appends. *)
Definition snapshot_of (s : Store.AppState) : Snapshot.t :=
  Snapshot.mk (Store.nodes s) (Store.edges s).

(** ** Sample documents *)

Module Sample.
Definition plain (nodeType : string) : NodeData.t :=
  NodeData.mk "" nodeType (Some 120) (Some 80) None None None.

Definition n1 : Node.t := Node.mk "n1" "custom" {| x := 0; y := 0 |} (plain "rectangle").
Definition n2 : Node.t := Node.mk "n2" "custom" {| x := 200; y := 0 |} (plain "rectangle").
Definition c1 : Node.t := Node.mk "c1" "custom" {| x := 0; y := 200 |} (plain "circle").

Definition e1 : Edge.t :=
  Edge.mk "e1" "n1" "n2" "straight" {| stroke := "#70f"; strokeWidth := 2 |}.

(** Two nodes joined by an edge, committed once. *)
Definition linked : Store.AppState :=
  Store.saveToHistory (Store.set_nodes_edges [n1; n2] [e1] Store.initial).

(** Two commits (the empty document, then [n1]) followed by one undo:
    the cursor is on the first entry and a redo is available. *)
Definition rewound : Store.AppState :=
  let s0 := Store.saveToHistory Store.initial in
  let s1 := Store.saveToHistory (Store.setNodes [n1] s0) in
  match Store.undo s1 with Ok s => s | TypeError => s1 end.

(** Two commits followed by a [setNodes] that no commit has recorded
    yet (an [onNodesChange] in the middle of a drag). *)
Definition dragging : Store.AppState :=
  let s0 := Store.saveToHistory Store.initial in
  let s1 := Store.saveToHistory (Store.setNodes [n1] s0) in
  Store.setNodes [n1; n2] s1.

(** [n1] after an assignment to its label. *)
Definition n1_relabelled : Node.t :=
  Node.with_data n1 (NodeData.mk "start" "rectangle" (Some 120) (Some 80) None None None).

(** A circle and a rectangle on the canvas, nothing committed. *)
Definition with_circle : Store.AppState := Store.setNodes [c1; n1] Store.initial.

Definition popover_idle : PopoverNode.Local :=
  PopoverNode.mkLocal false "" false None false false.

Definition menu_idle : ContextMenuNode.Local :=
  ContextMenuNode.mkLocal false "" false None {| x := 0; y := 0 |}
    {| ContextMenuNode.width := 0; ContextMenuNode.height := 0 |} None.

(** A drag that first grows the node and then shrinks it below the floor. *)
Definition moves : list MouseEvent :=
  [ {| clientX := 110; clientY := 130 |}; {| clientX := -400; clientY := 95 |} ].

(** A heap holding one node object and the two live arrays. *)
Definition one_node : Ref.AppState :=
  Ref.mk [Ref.NodeObj n1; Ref.ArrayObj [0%nat]; Ref.ArrayObj []] 1%nat 2%nat [] (-1).
End Sample.

(** * Properties *)

(** ** JavaScript arrays *)

Section Arrays.
Context {A : Type}.
Implicit Types l : list A.

Lemma slice_from_start l (k : Z) :
  0 ≤ k → JS.slice l 0 k = take (Z.to_nat k) l.
Proof.
  intros Hk. unfold JS.slice, JS.relative_index. simpl.
  destruct (Z.ltb_spec k 0); [exfalso; lia|].
  rewrite (Z.min_l 0) by lia.
  change (Z.to_nat 0) with 0%nat. rewrite drop_0, Z.sub_0_r.
  destruct (decide (k ≤ Z.of_nat (length l))) as [Hle|Hgt].
  - by rewrite Z.min_l by lia.
  - rewrite Z.min_r by lia. rewrite Nat2Z.id.
    rewrite (take_ge l (length l)) by lia.
    by rewrite (take_ge l (Z.to_nat k)) by lia.
Qed.

Lemma slice_nil (start end_ : Z) : JS.slice (@nil A) start end_ = [].
Proof. unfold JS.slice. by rewrite drop_nil, take_nil. Qed.

Lemma slice_whole l : JS.slice l 0 (Z.of_nat (length l)) = l.
Proof. rewrite slice_from_start by lia. rewrite Nat2Z.id. by rewrite take_ge. Qed.

Lemma index_in_range l (i : Z) :
  0 ≤ i < Z.of_nat (length l) → is_Some (JS.index l i).
Proof.
  intros [H0 Hlt]. unfold JS.index.
  destruct (Z.ltb_spec i 0); [exfalso; lia|].
  apply lookup_lt_is_Some. lia.
Qed.
End Arrays.

(** ** The history log *)

Section HistoryLog.
Import Store History.

Lemma saveToHistory_cursor s :
  historyIndex (saveToHistory s) = Z.of_nat (length (history (saveToHistory s))) - 1.
Proof. reflexivity. Qed.

Lemma saveToHistory_nonempty s : (0 < length (history (saveToHistory s)))%nat.
Proof. simpl. rewrite length_app. simpl. lia. Qed.

Lemma saveToHistory_invariant s : cursor_invariant (saveToHistory s).
Proof.
  right. rewrite saveToHistory_cursor.
  pose proof (saveToHistory_nonempty s). lia.
Qed.

Lemma undo_invariant s :
  cursor_invariant s → ∃ s', undo s = Ok s' ∧ cursor_invariant s'.
Proof.
  intros Hinv. unfold undo.
  destruct (Z.ltb_spec 0 (historyIndex s)) as [E|E]; [|eauto].
  destruct Hinv as [[_ Hi]|Hr]; [exfalso; lia|].
  destruct (index_in_range (history s) (historyIndex s - 1)) as [p Hp]; [lia|].
  rewrite Hp. eexists; split; [done|]. right. simpl. lia.
Qed.

Lemma redo_invariant s :
  cursor_invariant s → ∃ s', redo s = Ok s' ∧ cursor_invariant s'.
Proof.
  intros Hinv. unfold redo.
  destruct (Z.ltb_spec (historyIndex s) (Z.of_nat (length (history s)) - 1))
    as [E|E]; [|eauto].
  assert (-1 ≤ historyIndex s) as Hlo by (destruct Hinv as [[_ ?]|?]; lia).
  destruct (index_in_range (history s) (historyIndex s + 1)) as [p Hp]; [lia|].
  rewrite Hp. eexists; split; [done|]. right. simpl. lia.
Qed.

Lemma call_invariant c s :
  cursor_invariant s → ∃ s', call c s = Ok s' ∧ cursor_invariant s'.
Proof.
  destruct c; simpl; intros Hinv.
  - eauto using saveToHistory_invariant.
  - by apply undo_invariant.
  - by apply redo_invariant.
Qed.

Lemma run_invariant calls : ∀ s,
  cursor_invariant s →
  Forall (λ r, ∃ s', r = Ok s' ∧ cursor_invariant s') (run calls s).
Proof.
  induction calls as [|c calls IH]; intros s Hinv; simpl; [constructor|].
  destruct (call_invariant c s Hinv) as (s' & Hc & Hinv').
  rewrite Hc. constructor; eauto.
Qed.

Lemma length_run calls : ∀ s, length (run calls s) = length calls.
Proof. induction calls as [|c calls IH]; intros s; simpl; [done|]. by rewrite IH. Qed.

(** C2. Starting from the empty history (no entries, cursor -1), every
    call of every sequence of [saveToHistory], [undo] and [redo] calls
    returns without throwing and leaves a state in which either the log
    is empty with cursor -1, or the cursor is a valid index of the log. *)
Theorem history_cursor_invariant (calls : list Call) (s : AppState) :
  history s = [] →
  historyIndex s = -1 →
  length (run calls s) = length calls ∧
  Forall (λ r, ∃ s', r = Ok s' ∧
                ((history s' = [] ∧ historyIndex s' = -1) ∨
                 0 ≤ historyIndex s' < Z.of_nat (length (history s'))))
         (run calls s).
Proof.
  intros Hh Hi. split; [apply length_run|].
  apply run_invariant. by left.
Qed.

Lemma history_cursor_invariant_witness :
  length (run [SaveToHistory; Undo; SaveToHistory; Undo; Redo; Redo] initial) = 6%nat ∧
  Forall (λ r, ∃ s', r = Ok s' ∧
                ((history s' = [] ∧ historyIndex s' = -1) ∨
                 0 ≤ historyIndex s' < Z.of_nat (length (history s'))))
         (run [SaveToHistory; Undo; SaveToHistory; Undo; Redo; Redo] initial).
Proof.
  apply (history_cursor_invariant
           [SaveToHistory; Undo; SaveToHistory; Undo; Redo; Redo] initial);
    reflexivity.
Defined.

(** C10. Right after [saveToHistory] the cursor is the last index of the
    log, so a [redo] issued next returns the state unchanged: nodes,
    edges, history and cursor are those [saveToHistory] left. *)
Theorem redo_after_saveToHistory (s : AppState) :
  historyIndex (saveToHistory s) = Z.of_nat (length (history (saveToHistory s))) - 1 ∧
  redo (saveToHistory s) = Ok (saveToHistory s).
Proof.
  split; [apply saveToHistory_cursor|].
  unfold redo. rewrite saveToHistory_cursor.
  by rewrite Z.ltb_irrefl.
Qed.

Lemma saveToHistory_truncates s :
  -1 ≤ historyIndex s →
  history (saveToHistory s) =
    take (Z.to_nat (historyIndex s + 1)) (history s)
      ++ [Snapshot.mk (nodes s) (edges s)].
Proof. intros Hi. simpl. by rewrite slice_from_start by lia. Qed.

Lemma saveToHistory_at_end s :
  historyIndex s = Z.of_nat (length (history s)) - 1 →
  history (saveToHistory s) = history s ++ [Snapshot.mk (nodes s) (edges s)].
Proof.
  intros Hi. simpl. rewrite Hi.
  replace (Z.of_nat (length (history s)) - 1 + 1)
    with (Z.of_nat (length (history s))) by lia.
  by rewrite slice_whole.
Qed.

(** C4. [saveToHistory] keeps the entries up to the cursor, drops those
    after it, appends the snapshot of the current nodes and edges and
    puts the cursor on the new last index, leaving the document as it
    is. From the log [S0,S1,S2] with cursor 2, two [undo] calls give
    cursor 0 and the document of [S0]; [saveToHistory] on a new document
    [S3] then gives the log [S0,S3] and cursor 1. *)
Theorem saveToHistory_truncates_and_appends
    (s t : AppState) (S0 S1 S2 S3 : Snapshot.t) :
  -1 ≤ historyIndex s →
  history t = [S0; S1; S2] →
  historyIndex t = 2 →
  (history (saveToHistory s) =
     take (Z.to_nat (historyIndex s + 1)) (history s)
       ++ [Snapshot.mk (nodes s) (edges s)] ∧
   historyIndex (saveToHistory s) = Z.of_nat (length (history (saveToHistory s))) - 1 ∧
   nodes (saveToHistory s) = nodes s ∧
   edges (saveToHistory s) = edges s) ∧
  (∃ t2, bind (undo t) undo = Ok t2 ∧
     historyIndex t2 = 0 ∧
     nodes t2 = Snapshot.nodes S0 ∧
     edges t2 = Snapshot.edges S0 ∧
     let t3 :=
       saveToHistory (set_nodes_edges (Snapshot.nodes S3) (Snapshot.edges S3) t2) in
     history t3 = [S0; S3] ∧ historyIndex t3 = 1).
Proof.
  intros Hi Ht Hc. split.
  - split; [by apply saveToHistory_truncates|done].
  - destruct t as [tool ns es h i ed sel]. simpl in Ht, Hc. subst h i.
    eexists. split; [reflexivity|]. by destruct S3.
Qed.

Lemma saveToHistory_truncates_and_appends_witness :
  let s := Sample.rewound in
  let t :=
    set_history [Snapshot.mk [] []; Snapshot.mk [Sample.n1] [];
                 Snapshot.mk [Sample.n1; Sample.n2] [Sample.e1]] 2
      (set_nodes_edges [Sample.n1; Sample.n2] [Sample.e1] initial) in
  history (saveToHistory s) = [Snapshot.mk [] []; Snapshot.mk [] []] ∧
  ∃ t2, bind (undo t) undo = Ok t2 ∧ historyIndex t2 = 0 ∧ nodes t2 = [].
Proof.
  intros s t.
  destruct (saveToHistory_truncates_and_appends s t
              (Snapshot.mk [] []) (Snapshot.mk [Sample.n1] [])
              (Snapshot.mk [Sample.n1; Sample.n2] [Sample.e1])
              (Snapshot.mk [Sample.n2] []))
    as [[Hh _] (t2 & Hu & Hc & Hn & _)];
    [vm_compute; discriminate | reflexivity | reflexivity |].
  split; [exact Hh|].
  exists t2. split; [exact Hu|]. split; [exact Hc|exact Hn].
Defined.

(** C3, as the code has it. When [undo] has an entry to go back to
    (cursor above 0) and the live nodes and edges are the entry under
    the cursor, [undo] followed by [redo] returns the very state it
    started from, in particular the same nodes and edges. *)
Theorem undo_then_redo (s : AppState) :
  0 < historyIndex s →
  JS.index (history s) (historyIndex s) = Some (Snapshot.mk (nodes s) (edges s)) →
  ∃ s1, undo s = Ok s1 ∧ redo s1 = Ok s ∧ historyIndex s1 = historyIndex s - 1.
Proof.
  intros Hpos Hlive.
  assert (historyIndex s < Z.of_nat (length (history s))) as Hlt.
  { unfold JS.index in Hlive.
    destruct (Z.ltb_spec (historyIndex s) 0); [done|].
    apply lookup_lt_Some in Hlive. lia. }
  unfold undo.
  destruct (Z.ltb_spec 0 (historyIndex s)); [|exfalso; lia].
  destruct (index_in_range (history s) (historyIndex s - 1)) as [p Hp]; [lia|].
  rewrite Hp. eexists; split; [done|]. split; [|done].
  unfold redo. simpl.
  destruct (Z.ltb_spec (historyIndex s - 1) (Z.of_nat (length (history s)) - 1));
    [|exfalso; lia].
  replace (historyIndex s - 1 + 1) with (historyIndex s) by lia.
  rewrite Hlive. simpl. by destruct s.
Qed.

Lemma undo_then_redo_witness :
  let s := Store.saveToHistory (Store.setNodes [Sample.n1]
             (Store.saveToHistory Store.initial)) in
  ∃ s1, undo s = Ok s1 ∧ redo s1 = Ok s ∧ historyIndex s1 = historyIndex s - 1.
Proof.
  intros s. apply (undo_then_redo s); reflexivity.
Defined.

(** C3 as stated fails. With the cursor on the first entry and a later
    entry in the log, [undo] does nothing and [redo] moves forward; and
    a [setNodes] that no commit has recorded is lost by [undo] followed
    by [redo]. *)
Lemma undo_then_redo_counterexample :
  (∃ s2, bind (undo Sample.rewound) redo = Ok s2 ∧
         nodes Sample.rewound = [] ∧ nodes s2 = [Sample.n1]) ∧
  (∃ s2, bind (undo Sample.dragging) redo = Ok s2 ∧
         nodes Sample.dragging = [Sample.n1; Sample.n2] ∧ nodes s2 = [Sample.n1]) ∧
  ¬ (∀ s s1 s2, undo s = Ok s1 → redo s1 = Ok s2 →
                nodes s2 = nodes s ∧ edges s2 = edges s).
Proof.
  split; [eexists; split; [reflexivity|split; reflexivity]|].
  split; [eexists; split; [reflexivity|split; reflexivity]|].
  intros Hclaim.
  destruct (Hclaim Sample.rewound Sample.rewound
              (set_document [Sample.n1] [] 1 Sample.rewound)) as [Hn _];
    [reflexivity | reflexivity |].
  discriminate Hn.
Qed.
End HistoryLog.

(** ** Lists filtered in place of deletion *)

Section Filter.
Context {A : Type} (P : A → Prop) `{!∀ x, Decision (P x)}.
Implicit Types l k : list A.

Lemma filter_all l : Forall P l → filter P l = l.
Proof.
  induction 1 as [|x l Hx _ IH]; [done|].
  by rewrite filter_cons_True, IH.
Qed.

Lemma filter_sublist_mono k l :
  k `sublist_of` l → filter P k `sublist_of` filter P l.
Proof.
  induction 1 as [|x k l _ IH|x k l _ IH]; [done| |].
  - rewrite !filter_cons. destruct (decide (P x)); [by constructor|done].
  - rewrite filter_cons. destruct (decide (P x)); [by constructor|done].
Qed.

(** [filter P l] is the longest subsequence of [l] whose elements all
    satisfy [P]. *)
Lemma filter_greatest k l :
  k `sublist_of` l → Forall P k → k `sublist_of` filter P l.
Proof.
  intros Hsub Hall. rewrite <- (filter_all k Hall).
  by apply filter_sublist_mono.
Qed.

Lemma filter_filter_same l : filter P (filter P l) = filter P l.
Proof.
  apply filter_all, Forall_forall. intros x Hx.
  by apply list_elem_of_filter in Hx as [? _].
Qed.
End Filter.

(** ** Deleting a node *)

Section Deletion.
Import Store.

Lemma deleteNode_nodes nodeId s :
  nodes (deleteNode nodeId s) = filter (λ node, Node.id node ≠ nodeId) (nodes s).
Proof. reflexivity. Qed.

Lemma deleteNode_edges nodeId s :
  edges (deleteNode nodeId s) =
    filter (λ edge, Edge.source edge ≠ nodeId ∧ Edge.target edge ≠ nodeId) (edges s).
Proof. reflexivity. Qed.

(** C6. [deleteNode nodeId] leaves, in the order they had, exactly the
    nodes whose id differs from [nodeId] and exactly the edges whose
    source and target both differ from it: the new lists are
    subsequences of the old ones, they hold an element iff the old list
    held it and it is not a match, and every subsequence of the old list
    free of matches is a subsequence of the new one, so no other element
    is dropped, moved or changed. The tool, the editing target and the
    selection are untouched. *)
Theorem deleteNode_frame (s : AppState) (nodeId : string) :
  let s' := deleteNode nodeId s in
  (nodes s' `sublist_of` nodes s ∧
   (∀ n, n ∈ nodes s' ↔ n ∈ nodes s ∧ Node.id n ≠ nodeId) ∧
   (∀ k, k `sublist_of` nodes s →
         Forall (λ n, Node.id n ≠ nodeId) k → k `sublist_of` nodes s')) ∧
  (edges s' `sublist_of` edges s ∧
   (∀ e, e ∈ edges s' ↔
         e ∈ edges s ∧ Edge.source e ≠ nodeId ∧ Edge.target e ≠ nodeId) ∧
   (∀ k, k `sublist_of` edges s →
         Forall (λ e, Edge.source e ≠ nodeId ∧ Edge.target e ≠ nodeId) k →
         k `sublist_of` edges s')) ∧
  currentTool s' = currentTool s ∧
  editingNodeId s' = editingNodeId s ∧
  selectedNodes s' = selectedNodes s.
Proof.
  intros s'. subst s'. rewrite deleteNode_nodes, deleteNode_edges.
  split_and!; try done.
  - apply sublist_filter.
  - intros n. rewrite list_elem_of_filter. tauto.
  - intros k. apply filter_greatest.
  - apply sublist_filter.
  - intros e. rewrite list_elem_of_filter. tauto.
  - intros k. apply filter_greatest.
Qed.

(** C7, as the code has it. [deleteNode] cannot throw. A second
    [deleteNode nodeId] leaves the nodes and edges of the first one; the
    nodes are unchanged when no node has the id, and the edges when no
    edge has it as source or target. Every call commits: after the first
    call the last entry of the log is the snapshot of the new document
    and the cursor is on it, and the second call appends that snapshot
    once more and moves the cursor one further, so the log is not the
    same after two calls as after one. *)
Theorem deleteNode_twice (s : AppState) (nodeId : string) :
  let s1 := deleteNode nodeId s in
  let s2 := deleteNode nodeId s1 in
  nodes s2 = nodes s1 ∧
  edges s2 = edges s1 ∧
  ((∀ n, n ∈ nodes s → Node.id n ≠ nodeId) → nodes s1 = nodes s) ∧
  ((∀ e, e ∈ edges s → Edge.source e ≠ nodeId ∧ Edge.target e ≠ nodeId) →
   edges s1 = edges s) ∧
  last (history s1) = Some (Snapshot.mk (nodes s1) (edges s1)) ∧
  historyIndex s1 = Z.of_nat (length (history s1)) - 1 ∧
  history s2 = history s1 ++ [Snapshot.mk (nodes s1) (edges s1)] ∧
  historyIndex s2 = historyIndex s1 + 1.
Proof.
  intros s1 s2.
  assert (nodes s2 = nodes s1) as Hn
    by (subst s1 s2; rewrite !deleteNode_nodes; apply filter_filter_same).
  assert (edges s2 = edges s1) as He
    by (subst s1 s2; rewrite !deleteNode_edges; apply filter_filter_same).
  assert (history s2 = history s1 ++ [Snapshot.mk (nodes s1) (edges s1)]) as Hh.
  { rewrite <- Hn, <- He. subst s2. unfold deleteNode at 1.
    by rewrite saveToHistory_at_end. }
  split_and!; try done.
  - intros Habs. subst s1. rewrite deleteNode_nodes.
    by apply filter_all, Forall_forall.
  - intros Habs. subst s1. rewrite deleteNode_edges.
    by apply filter_all, Forall_forall.
  - subst s1. unfold deleteNode. simpl. apply last_snoc.
  - change (historyIndex s2) with (Z.of_nat (length (history s2)) - 1).
    change (historyIndex s1) with (Z.of_nat (length (history s1)) - 1).
    rewrite Hh, length_app. simpl. lia.
Qed.

Lemma deleteNode_twice_witness :
  let s1 := deleteNode "n3" Sample.linked in
  let s2 := deleteNode "n3" s1 in
  nodes s2 = nodes s1 ∧ nodes s1 = [Sample.n1; Sample.n2] ∧
  edges s1 = [Sample.e1] ∧ historyIndex s2 = historyIndex s1 + 1.
Proof.
  intros s1 s2.
  destruct (deleteNode_twice Sample.linked "n3")
    as (Hn & _ & Hnodes & Hedges & _ & _ & _ & Hi).
  split; [exact Hn|]. split; [|split; [|exact Hi]].
  - apply Hnodes. intros n Hin. vm_compute in Hin.
    apply elem_of_cons in Hin as [->|Hin]; [discriminate|].
    apply elem_of_cons in Hin as [->|Hin]; [discriminate|].
    by apply elem_of_nil in Hin.
  - apply Hedges. intros e Hin. vm_compute in Hin.
    apply elem_of_cons in Hin as [->|Hin]; [split; discriminate|].
    by apply elem_of_nil in Hin.
Defined.

(** C7 as stated fails. On the empty store, where no node has the id,
    [deleteNode] is not a no-op (the log gets an entry), and a second
    call does not leave the state of the first (the log gets another). *)
Lemma deleteNode_idempotent_counterexample :
  deleteNode "n1" initial ≠ initial ∧
  deleteNode "n1" (deleteNode "n1" initial) ≠ deleteNode "n1" initial ∧
  length (history initial) = 0%nat ∧
  length (history (deleteNode "n1" initial)) = 1%nat ∧
  length (history (deleteNode "n1" (deleteNode "n1" initial))) = 2%nat.
Proof.
  split; [|split]; [discriminate | discriminate | done].
Qed.
End Deletion.

(** ** Deleting from the popover and from the context menu *)

Section HandlerDeletion.
Import Store.

(** Neither handler writes the edges. *)
Lemma handleDelete_edges id nodes s l :
  edges (PopoverNode.handleDelete id nodes s l).1 = edges s.
Proof. reflexivity. Qed.

Lemma context_menu_deleteNode_edges nodeId nodes onClose s l :
  edges (NodeContextMenu.deleteNode nodeId nodes onClose s l).1 = edges s.
Proof. reflexivity. Qed.

(** C1 at a concrete document: nodes [n1] and [n2] joined by the edge
    [e1] from [n1] to [n2]. The popover's [handleDelete] and the context
    menu's [deleteNode] for [n1] remove the node, close their menu and
    leave [e1], whose source is the deleted node, in the store; the
    store's [deleteNode] and the eraser click remove it. *)
Theorem handler_delete_leaves_edge
    (l : PopoverNode.Local) (m : ContextMenuNode.Local) :
  let s := Sample.linked in
  let popover := PopoverNode.handleDelete "n1" (nodes s) s l in
  let menu :=
    NodeContextMenu.deleteNode "n1" (nodes s) ContextMenuNode.closeContextMenu s m in
  (nodes popover.1 = [Sample.n2] ∧ edges popover.1 = [Sample.e1] ∧
   PopoverNode.showPopup popover.2 = false) ∧
  (nodes menu.1 = [Sample.n2] ∧ edges menu.1 = [Sample.e1] ∧
   ContextMenuNode.contextMenu menu.2 = None) ∧
  Edge.source Sample.e1 = "n1" ∧
  edges (deleteNode "n1" s) = [] ∧
  edges (Canvas.onNodeClick Tool.eraser (nodes s) (edges s) Sample.n1 s) = [].
Proof. intros s popover menu. by split_and!. Qed.
End HandlerDeletion.

(** ** Creating a shape *)

Section PaneClick.
Import Store.

(** C9. From no nodes, no edges and an empty history, with the rectangle
    tool, a click on the pane whose projected position is (50,60)
    leaves exactly one node, at (50,60), of node type rectangle, 120
    wide and 80 high; the history holds exactly one entry, the snapshot
    of that document, with the cursor on it; and the tool is select. *)
Theorem onPaneClick_rectangle
    (s : AppState) (bounds : DOMRect) (project : Position → Position)
    (now : Z) (event : MouseEvent) :
  nodes s = [] →
  edges s = [] →
  history s = [] →
  currentTool s = Tool.rectangle →
  project {| x := clientX event - left bounds; y := clientY event - top bounds |}
    = {| x := 50; y := 60 |} →
  let s' :=
    Canvas.onPaneClick (currentTool s) (nodes s) (Some bounds) project now event s in
  ∃ n, nodes s' = [n] ∧
       Node.position n = {| x := 50; y := 60 |} ∧
       NodeData.nodeType (Node.data n) = "rectangle" ∧
       NodeData.width (Node.data n) = Some 120 ∧
       NodeData.height (Node.data n) = Some 80 ∧
       edges s' = [] ∧
       history s' = [Snapshot.mk [n] []] ∧
       historyIndex s' = 0 ∧
       currentTool s' = Tool.select.
Proof.
  intros Hn He Hh Ht Hp s'. subst s'.
  unfold Canvas.onPaneClick. rewrite Ht, Hn, Hp. simpl.
  eexists. split; [reflexivity|].
  rewrite He, Hh, slice_nil. by split_and!.
Qed.

Lemma onPaneClick_rectangle_witness :
  let s := setCurrentTool Tool.rectangle initial in
  let s' :=
    Canvas.onPaneClick (currentTool s) (nodes s) (Some {| left := 10; top := 20 |})
      (λ p, p) 1700000000000 {| clientX := 60; clientY := 80 |} s in
  ∃ n, nodes s' = [n] ∧
       Node.position n = {| x := 50; y := 60 |} ∧
       NodeData.nodeType (Node.data n) = "rectangle" ∧
       NodeData.width (Node.data n) = Some 120 ∧
       NodeData.height (Node.data n) = Some 80 ∧
       edges s' = [] ∧
       history s' = [Snapshot.mk [n] []] ∧
       historyIndex s' = 0 ∧
       currentTool s' = Tool.select.
Proof.
  intros s.
  apply (onPaneClick_rectangle s {| left := 10; top := 20 |} (λ p, p)
           1700000000000 {| clientX := 60; clientY := 80 |}); reflexivity.
Defined.
End PaneClick.

(** ** Resizing a circle *)

Section Resize.
Import Store.

Lemma update_node_id id updates node :
  Node.id (update_node id updates node) = Node.id node.
Proof. unfold update_node. by destruct (decide _). Qed.

Lemma props_data_update id updates nodes data :
  props_data id nodes = Some data →
  props_data id (update_node id updates <$> nodes)
    = Some (NodeData.spread data updates).
Proof.
  unfold props_data. induction nodes as [|n nodes IH]; [done|].
  rewrite fmap_cons. cbn [list_find].
  destruct (decide (Node.id n = id)) as [Heq|Hne].
  - rewrite decide_True by (by rewrite update_node_id).
    cbn. intros [= <-]. unfold update_node. by rewrite decide_True by done.
  - rewrite decide_False by (by rewrite update_node_id).
    destruct (list_find _ nodes) as [[i m]|] eqn:Hfind; [|done].
    cbn. intros [= <-]. cbn in IH.
    specialize (IH eq_refl).
    destruct (list_find _ (_ <$> nodes)) as [[j m']|]; [|done].
    cbn in *. by injection IH as ->.
Qed.

Lemma props_data_elem id nodes data :
  props_data id nodes = Some data → ∃ n, n ∈ nodes ∧ Node.id n = id.
Proof.
  unfold props_data. intros Hp.
  destruct (list_find _ nodes) as [[i n]|] eqn:Hfind; [|done].
  apply list_find_Some in Hfind as (Hl & Hid & _).
  exists n. split; [|done]. by eapply list_elem_of_lookup_2.
Qed.

Lemma square_update_locks id size nodes :
  (∃ n, n ∈ nodes ∧ Node.id n = id) →
  ∀ s, Store.nodes s = update_node id (square_update size) <$> nodes →
       aspect_locked id s.
Proof.
  intros (n & Hin & Hid) s Hs. unfold aspect_locked. rewrite Hs. split.
  - exists (update_node id (square_update size) n). split.
    + by apply list_elem_of_fmap_2.
    + by rewrite update_node_id.
  - intros m [k [-> Hk]]%list_elem_of_fmap. rewrite update_node_id.
    intros Hkid. exists size. unfold update_node.
    by rewrite decide_True by done.
Qed.

Lemma popover_move_circle id c e s :
  NodeData.nodeType (PopoverNode.data c) = "circle" →
  ∃ size, Store.nodes (PopoverNode.handleMouseMove id c e s)
            = update_node id (square_update size) <$> PopoverNode.nodes c.
Proof.
  intros Hcircle. unfold PopoverNode.handleMouseMove.
  repeat destruct (decide (PopoverNode.handle c = _));
    (rewrite decide_True by done; by eexists).
Qed.

Lemma popover_drag_circle id c moves : ∀ s,
  NodeData.nodeType (PopoverNode.data c) = "circle" →
  (∃ n, n ∈ PopoverNode.nodes c ∧ Node.id n = id) →
  Forall (aspect_locked id) (PopoverNode.drag id c moves s).
Proof.
  induction moves as [|e moves IH]; intros s Hcircle Hin; simpl; [constructor|].
  constructor; [|by apply IH].
  destruct (popover_move_circle id c e s Hcircle) as [size Hsize].
  by eapply square_update_locks.
Qed.

Lemma context_move_circle id data nodes data0 e0 h l e s :
  NodeData.nodeType data = "circle" →
  ∃ size,
    Store.nodes
      (ContextMenuNode.handleResizeMove id data nodes
         (ContextMenuNode.handleResizeStart data0 e0 (corner_name h) l) e s)
      = update_node id (square_update size) <$> nodes.
Proof.
  intros Hcircle. unfold ContextMenuNode.handleResizeMove.
  destruct h; cbn; rewrite decide_True by done; by eexists.
Qed.

Lemma context_drag_circle id data0 e0 h l moves : ∀ s data,
  props_data id (Store.nodes s) = Some data →
  NodeData.nodeType data = "circle" →
  Forall (aspect_locked id)
    (ContextMenuNode.drag id
       (ContextMenuNode.handleResizeStart data0 e0 (corner_name h) l) moves s).
Proof.
  induction moves as [|e moves IH]; intros s data Hprops Hcircle; simpl;
    [constructor|].
  rewrite Hprops.
  destruct (context_move_circle id data (Store.nodes s) data0 e0 h l e s Hcircle)
    as [size Hsize].
  constructor.
  - eapply square_update_locks; [|exact Hsize]. by eapply props_data_elem.
  - eapply (IH _ (NodeData.spread data (square_update size))); [|done].
    rewrite Hsize. by apply props_data_update.
Qed.

Lemma length_popover_drag id c moves : ∀ s,
  length (PopoverNode.drag id c moves s) = length moves.
Proof. induction moves as [|e moves IH]; intros s; simpl; [done|]. by rewrite IH. Qed.

Lemma length_context_drag id l moves : ∀ s,
  length (ContextMenuNode.drag id l moves s) = length moves.
Proof. induction moves as [|e moves IH]; intros s; simpl; [done|]. by rewrite IH. Qed.

Lemma square_update_unifies id size (nodes : list Node.t) :
  (∃ n, n ∈ nodes ∧ Node.id n = id) →
  (∃ n, n ∈ update_node id (square_update size) <$> nodes ∧ Node.id n = id) ∧
  ∀ n, n ∈ update_node id (square_update size) <$> nodes → Node.id n = id →
       NodeData.width (Node.data n) = Some size ∧
       NodeData.height (Node.data n) = Some size.
Proof.
  intros (n & Hin & Hid). split.
  - exists (update_node id (square_update size) n). split.
    + by apply list_elem_of_fmap_2.
    + by rewrite update_node_id.
  - intros m [k [-> Hk]]%list_elem_of_fmap. rewrite update_node_id.
    intros Hkid. unfold update_node. by rewrite decide_True by done.
Qed.

(** What a move of the popover controller writes for a circle. *)
Lemma popover_move_circle_min id data nodes e0 h l e s :
  NodeData.nodeType data = "circle" →
  PopoverNode.handleMouseMove id
    (PopoverNode.handleResizeStart data nodes e0 (corner_name h) l).1 e s
  = PopoverNode.updateNodeData id nodes
      (square_update
         (Z.min (new_width 60 h (JS.or_number (NodeData.width data) 120)
                   (clientX e - clientX e0))
                (new_height 40 h (JS.or_number (NodeData.height data) 80)
                   (clientY e - clientY e0))))
      s.
Proof.
  intros Hcircle.
  unfold PopoverNode.handleMouseMove, PopoverNode.handleResizeStart.
  cbn [fst PopoverNode.handle PopoverNode.startX PopoverNode.startY
       PopoverNode.startWidth PopoverNode.startHeight PopoverNode.data
       PopoverNode.nodes].
  destruct h; cbn [corner_name];
    repeat (rewrite decide_False by (intros ?; discriminate));
    try rewrite decide_True by reflexivity; cbv beta iota;
    rewrite decide_True by done; reflexivity.
Qed.

(** What a move of the context-menu controller writes for a circle. *)
Lemma context_move_circle_min id data nodes data0 e0 h l e s :
  NodeData.nodeType data = "circle" →
  ContextMenuNode.handleResizeMove id data nodes
    (ContextMenuNode.handleResizeStart data0 e0 (corner_name h) l) e s
  = ContextMenuNode.updateNodeData id nodes
      (square_update
         (Z.min (new_width 50 h (JS.or_number (NodeData.width data0) 120)
                   (clientX e - clientX e0))
                (new_height 30 h (JS.or_number (NodeData.height data0) 80)
                   (clientY e - clientY e0))))
      s.
Proof.
  intros Hcircle.
  unfold ContextMenuNode.handleResizeMove, ContextMenuNode.handleResizeStart.
  cbn [ContextMenuNode.resizeHandle ContextMenuNode.isResizing
       ContextMenuNode.startPos ContextMenuNode.startSize
       ContextMenuNode.width ContextMenuNode.height x y negb orb].
  destruct h; cbn [corner_name];
    (rewrite bool_decide_eq_false_2 by (intros ?; discriminate));
    repeat match goal with |- context [JS.includes ?a ?b] =>
      let v := eval vm_compute in (JS.includes a b) in
      change (JS.includes a b) with v end;
    cbv beta iota; rewrite decide_True by done; reflexivity.
Qed.

Lemma popover_drag_unified id data nodes e0 h l moves : ∀ s,
  NodeData.nodeType data = "circle" →
  (∃ n, n ∈ nodes ∧ Node.id n = id) →
  Forall2 (unified_to_min id 60 40 h data e0) moves
    (PopoverNode.drag id
       (PopoverNode.handleResizeStart data nodes e0 (corner_name h) l).1 moves s).
Proof.
  induction moves as [|e moves IH]; intros s Hcircle Hin; [constructor|].
  cbn [PopoverNode.drag]. cbv zeta.
  rewrite !(popover_move_circle_min id data nodes e0 h l e) by done.
  constructor; [|by apply IH].
  unfold unified_to_min. cbv zeta.
  by apply (square_update_unifies id _ nodes).
Qed.

Lemma context_drag_unified id data0 e0 h l moves : ∀ s data,
  props_data id (Store.nodes s) = Some data →
  NodeData.nodeType data = "circle" →
  Forall2 (unified_to_min id 50 30 h data0 e0) moves
    (ContextMenuNode.drag id
       (ContextMenuNode.handleResizeStart data0 e0 (corner_name h) l) moves s).
Proof.
  induction moves as [|e moves IH]; intros s data Hprops Hcircle; [constructor|].
  cbn [ContextMenuNode.drag]. rewrite Hprops. cbv zeta.
  rewrite !(context_move_circle_min id data (Store.nodes s) data0 e0 h l e) by done.
  constructor.
  - unfold unified_to_min. cbv zeta.
    apply (square_update_unifies id _ (Store.nodes s)). by eapply props_data_elem.
  - eapply (IH _ (NodeData.spread data (square_update _))); [|done].
    by apply props_data_update.
Qed.

(** C8. Let the node [id] have node type circle and let a resize start
    at [e0] on any of its four handles. In the popover controller and in
    the context-menu controller alike, every pointer move [e] of the drag
    writes to the node's data, as width and as height alike,
    [min(newWidth, newHeight)]: the smaller of the new width and the new
    height that the move computes from the start size and the pointer
    delta, with the sign of the corner and the floor of the controller
    (60 by 40 in the popover controller, 50 by 30 in the context-menu
    one). So after every move the store holds the node with a width and
    a height that are the same number. *)
Theorem circle_resize_aspect_lock
    (id : string) (s : AppState) (data : NodeData.t) (e0 : MouseEvent)
    (h : Corner) (lp : PopoverNode.Local) (lm : ContextMenuNode.Local)
    (moves : list MouseEvent) :
  props_data id (nodes s) = Some data →
  NodeData.nodeType data = "circle" →
  let c := (PopoverNode.handleResizeStart data (nodes s) e0 (corner_name h) lp).1 in
  let l := ContextMenuNode.handleResizeStart data e0 (corner_name h) lm in
  (length (PopoverNode.drag id c moves s) = length moves ∧
   Forall2 (unified_to_min id 60 40 h data e0) moves (PopoverNode.drag id c moves s) ∧
   Forall (aspect_locked id) (PopoverNode.drag id c moves s)) ∧
  (length (ContextMenuNode.drag id l moves s) = length moves ∧
   Forall2 (unified_to_min id 50 30 h data e0) moves (ContextMenuNode.drag id l moves s) ∧
   Forall (aspect_locked id) (ContextMenuNode.drag id l moves s)).
Proof.
  intros Hprops Hcircle c l. split; split_and!.
  - apply length_popover_drag.
  - apply popover_drag_unified; [done|]. by eapply props_data_elem.
  - apply popover_drag_circle; [done|]. by eapply props_data_elem.
  - apply length_context_drag.
  - by eapply context_drag_unified.
  - by eapply context_drag_circle.
Qed.

Lemma circle_resize_aspect_lock_witness :
  let s := Sample.with_circle in
  let e0 := {| clientX := 100; clientY := 100 |} in
  let c :=
    (PopoverNode.handleResizeStart (Sample.plain "circle") (nodes s) e0
       (corner_name BottomRight) Sample.popover_idle).1 in
  let l :=
    ContextMenuNode.handleResizeStart (Sample.plain "circle") e0
      (corner_name BottomRight) Sample.menu_idle in
  (Forall2 (unified_to_min "c1" 60 40 BottomRight (Sample.plain "circle") e0)
     Sample.moves (PopoverNode.drag "c1" c Sample.moves s) ∧
   Forall (aspect_locked "c1") (PopoverNode.drag "c1" c Sample.moves s)) ∧
  (Forall2 (unified_to_min "c1" 50 30 BottomRight (Sample.plain "circle") e0)
     Sample.moves (ContextMenuNode.drag "c1" l Sample.moves s) ∧
   Forall (aspect_locked "c1") (ContextMenuNode.drag "c1" l Sample.moves s)).
Proof.
  intros s e0 c l.
  destruct (circle_resize_aspect_lock "c1" s (Sample.plain "circle") e0
              BottomRight Sample.popover_idle Sample.menu_idle Sample.moves)
    as [(_ & Hpu & Hp) (_ & Hmu & Hm)]; [reflexivity | reflexivity |].
  split; split; assumption.
Defined.

(** The sizes the sample drag writes to the circle: the first move gives
    130 by 110 in the popover controller and the smaller, 110, is
    written; the second gives 60 by 75 and 60 is written. *)
Example circle_resize_sizes :
  let s := Sample.with_circle in
  let e0 := {| clientX := 100; clientY := 100 |} in
  let c :=
    (PopoverNode.handleResizeStart (Sample.plain "circle") (nodes s) e0
       (corner_name BottomRight) Sample.popover_idle).1 in
  (λ t, (λ d, (NodeData.width d, NodeData.height d)) <$> props_data "c1" (nodes t))
    <$> PopoverNode.drag "c1" c Sample.moves s
  = [Some (Some 110, Some 110); Some (Some 60, Some 60)].
Proof. reflexivity. Qed.
End Resize.

(** ** What a history entry shares with the live document *)

Section Sharing.
Import Ref.

Lemma array_elems_allocated h a elems :
  array_elems h a = Some elems → h !! a = Some (ArrayObj elems).
Proof.
  unfold array_elems. destruct (h !! a) as [[| |elems']|]; try done.
  by intros [= ->].
Qed.

Lemma node_at_allocated h a n : node_at h a = Some n → h !! a = Some (NodeObj n).
Proof.
  unfold node_at. destruct (h !! a) as [[n'| |]|]; try done. by intros [= ->].
Qed.

Lemma edge_at_allocated h a e : edge_at h a = Some e → h !! a = Some (EdgeObj e).
Proof.
  unfold edge_at. destruct (h !! a) as [[|e'|]|]; try done. by intros [= ->].
Qed.

Lemma read_nodes_preserved h h' a a' v :
  read_nodes h a = Some v →
  array_elems h' a' = array_elems h a →
  (∀ x n, node_at h x = Some n → node_at h' x = Some n) →
  read_nodes h' a' = Some v.
Proof.
  unfold read_nodes. intros (ns & Hns & Hmap)%bind_Some Harr Hnode.
  rewrite Harr, Hns. cbn. apply mapM_Some. apply mapM_Some in Hmap.
  eapply Forall2_impl; [exact Hmap|]. cbn. auto.
Qed.

Lemma read_edges_preserved h h' a a' v :
  read_edges h a = Some v →
  array_elems h' a' = array_elems h a →
  (∀ x e, edge_at h x = Some e → edge_at h' x = Some e) →
  read_edges h' a' = Some v.
Proof.
  unfold read_edges. intros (es & Hes & Hmap)%bind_Some Harr Hedge.
  rewrite Harr, Hes. cbn. apply mapM_Some. apply mapM_Some in Hmap.
  eapply Forall2_impl; [exact Hmap|]. cbn. auto.
Qed.

(** Reading an entry gives the same value in any heap that has the same
    two arrays at the entry's addresses and keeps the node and edge
    objects. *)
Lemma read_entry_preserved h h' r r' snap :
  read_entry h r = Some snap →
  array_elems h' (e_nodes r') = array_elems h (e_nodes r) →
  array_elems h' (e_edges r') = array_elems h (e_edges r) →
  (∀ a n, node_at h a = Some n → node_at h' a = Some n) →
  (∀ a e, edge_at h a = Some e → edge_at h' a = Some e) →
  read_entry h' r' = Some snap.
Proof.
  unfold read_entry.
  intros (vn & Hvn & (ve & Hve & Hsnap)%bind_Some)%bind_Some Hn He Hnode Hedge.
  rewrite (read_nodes_preserved h h' _ _ vn Hvn Hn Hnode). cbn.
  by rewrite (read_edges_preserved h h' _ _ ve Hve He Hedge).
Qed.

(** A write to an array leaves every node and edge object, and every
    other array, as it was. *)
Lemma mutate_array_node_at h m elems a n :
  h !! address m = Some (ArrayObj elems) →
  node_at h a = Some n → node_at (mutate m h) a = Some n.
Proof.
  intros Harr Hnode. pose proof (node_at_allocated _ _ _ Hnode) as Ha.
  unfold mutate. destruct m as [b elems'|b n'|b e']; cbn in *;
    rewrite Harr; [|exact Hnode..].
  unfold node_at. rewrite list_lookup_insert_ne by congruence. by rewrite Ha.
Qed.

Lemma mutate_array_edge_at h m elems a e :
  h !! address m = Some (ArrayObj elems) →
  edge_at h a = Some e → edge_at (mutate m h) a = Some e.
Proof.
  intros Harr Hedge. pose proof (edge_at_allocated _ _ _ Hedge) as Ha.
  unfold mutate. destruct m as [b elems'|b n'|b e']; cbn in *;
    rewrite Harr; [|exact Hedge..].
  unfold edge_at. rewrite list_lookup_insert_ne by congruence. by rewrite Ha.
Qed.

Lemma mutate_other_array h m a :
  address m ≠ a → array_elems (mutate m h) a = array_elems h a.
Proof.
  intros Hne. unfold mutate.
  destruct m as [b elems'|b n'|b e']; cbn in *;
    destruct (h !! b) as [[| |]|]; try done;
    unfold array_elems; by rewrite list_lookup_insert_ne by done.
Qed.

Lemma lookup_alloc_fst (h : list Obj) o1 o2 :
  ((h ++ [o1]) ++ [o2]) !! length h = Some o1.
Proof. rewrite <- app_assoc. by apply list_lookup_middle. Qed.

Lemma lookup_alloc_snd (h : list Obj) o1 o2 :
  ((h ++ [o1]) ++ [o2]) !! length (h ++ [o1]) = Some o2.
Proof. by apply list_lookup_middle. Qed.

Lemma saveToHistory_allocates
    (s : AppState) (vn : list Node.t) (ve : list Edge.t) :
  read_nodes (heap s) (nodes s) = Some vn →
  read_edges (heap s) (edges s) = Some ve →
  ∃ ns es,
    array_elems (heap s) (nodes s) = Some ns ∧
    array_elems (heap s) (edges s) = Some es ∧
    saveToHistory s =
      Some (mk ((heap s ++ [ArrayObj ns]) ++ [ArrayObj es]) (nodes s) (edges s)
              (JS.slice (history s) 0 (historyIndex s + 1)
                 ++ [ {| e_nodes := length (heap s);
                         e_edges := length (heap s ++ [ArrayObj ns]) |} ])
              (Z.of_nat (length (JS.slice (history s) 0 (historyIndex s + 1)
                 ++ [ {| e_nodes := length (heap s);
                         e_edges := length (heap s ++ [ArrayObj ns]) |} ])) - 1)) ∧
    read_entry ((heap s ++ [ArrayObj ns]) ++ [ArrayObj es])
      {| e_nodes := length (heap s); e_edges := length (heap s ++ [ArrayObj ns]) |}
      = Some (Snapshot.mk vn ve).
Proof.
  intros Hvn Hve.
  destruct (array_elems (heap s) (nodes s)) as [ns|] eqn:Hns;
    [|by unfold read_nodes in Hvn; rewrite Hns in Hvn].
  destruct (array_elems (heap s) (edges s)) as [es|] eqn:Hes;
    [|by unfold read_edges in Hve; rewrite Hes in Hve].
  exists ns, es. split; [done|]. split; [done|].
  split; [unfold saveToHistory; by rewrite Hns, Hes|].
  assert (∀ a o, heap s !! a = Some o →
                 ((heap s ++ [ArrayObj ns]) ++ [ArrayObj es]) !! a = Some o) as Hext.
  { intros a o Ha. rewrite <- app_assoc. by apply lookup_app_l_Some. }
  apply (read_entry_preserved (heap s) _ {| e_nodes := nodes s; e_edges := edges s |}).
  - unfold read_entry. cbn. by rewrite Hvn, Hve.
  - cbn [e_nodes]. rewrite Hns. unfold array_elems. by rewrite lookup_alloc_fst.
  - cbn [e_edges]. rewrite Hes. unfold array_elems. by rewrite lookup_alloc_snd.
  - intros a n Ha%node_at_allocated. unfold node_at. by rewrite (Hext _ _ Ha).
  - intros a e Ha%edge_at_allocated. unfold edge_at. by rewrite (Hext _ _ Ha).
Qed.

Lemma mutate_keeps_array h m a elems :
  h !! a = Some (ArrayObj elems) → ∃ elems', mutate m h !! a = Some (ArrayObj elems').
Proof.
  intros Ha. pose proof (lookup_lt_Some _ _ _ Ha) as Hlt.
  unfold mutate. destruct m as [b elems'|b n'|b e']; cbn;
    destruct (h !! b) as [[| |]|] eqn:Hb; eauto;
    destruct (decide (b = a)) as [->|Hne];
    try (rewrite list_lookup_insert_ne by done; eauto); try congruence.
  rewrite list_lookup_insert_eq by done. eauto.
Qed.

(** Writes to two arrays that are not an entry's arrays leave the entry's
    value. *)
Lemma mutate_all_arrays h ms an ae r snap :
  is_Some (array_elems h an) → is_Some (array_elems h ae) →
  e_nodes r ≠ an → e_nodes r ≠ ae → e_edges r ≠ an → e_edges r ≠ ae →
  read_entry h r = Some snap →
  Forall (λ m, address m = an ∨ address m = ae) ms →
  read_entry (mutate_all ms h) r = Some snap.
Proof.
  intros Han Hae Hnn Hne Hen Hee Hread Hms. revert h Han Hae Hread.
  induction Hms as [|m ms Hm _ IH]; intros h Han Hae Hread; [done|].
  destruct Han as [en Han%array_elems_allocated].
  destruct Hae as [ee Hae%array_elems_allocated].
  cbn. apply IH.
  - destruct (mutate_keeps_array h m an en Han) as [en' Hen'].
    exists en'. unfold array_elems. by rewrite Hen'.
  - destruct (mutate_keeps_array h m ae ee Hae) as [ee' Hee'].
    exists ee'. unfold array_elems. by rewrite Hee'.
  - assert (∃ elems, h !! address m = Some (ArrayObj elems)) as [elems Harr]
      by (destruct Hm as [->| ->]; eauto).
    apply (read_entry_preserved h (mutate m h) r); [done| | | |].
    + apply mutate_other_array. by destruct Hm as [->| ->].
    + apply mutate_other_array. by destruct Hm as [->| ->].
    + intros a n. by apply mutate_array_node_at with elems.
    + intros a e. by apply mutate_array_edge_at with elems.
Qed.

(** C5, as the code has it. On a well-formed document (the live arrays
    read as lists of nodes and of edges), [saveToHistory] returns and
    leaves the live arrays in place; the entry it appends holds two arrays
    that did not exist before, so neither is a live array; they hold the
    very element objects of the live arrays, in the same order; the entry
    reads as the value of the document at the time of the call; and no
    sequence of in-place writes to the two live arrays changes what the
    entry reads as. *)
Theorem saveToHistory_copies_arrays
    (s : AppState) (vn : list Node.t) (ve : list Edge.t) :
  read_nodes (heap s) (nodes s) = Some vn →
  read_edges (heap s) (edges s) = Some ve →
  ∃ s' r,
    saveToHistory s = Some s' ∧
    last (history s') = Some r ∧
    nodes s' = nodes s ∧ edges s' = edges s ∧
    (heap s !! e_nodes r = None ∧ heap s !! e_edges r = None ∧
     e_nodes r ≠ e_edges r ∧
     e_nodes r ≠ nodes s' ∧ e_nodes r ≠ edges s' ∧
     e_edges r ≠ nodes s' ∧ e_edges r ≠ edges s') ∧
    array_elems (heap s') (e_nodes r) = array_elems (heap s') (nodes s') ∧
    array_elems (heap s') (e_edges r) = array_elems (heap s') (edges s') ∧
    read_entry (heap s') r = Some (Snapshot.mk vn ve) ∧
    ∀ ms, Forall (λ m, address m = nodes s' ∨ address m = edges s') ms →
          read_entry (mutate_all ms (heap s')) r = Some (Snapshot.mk vn ve).
Proof.
  intros Hvn Hve.
  destruct (saveToHistory_allocates s vn ve Hvn Hve)
    as (ns & es & Hns & Hes & Hsave & Hread).
  pose proof (array_elems_allocated _ _ _ Hns) as Hln.
  pose proof (array_elems_allocated _ _ _ Hes) as Hle.
  pose proof (lookup_lt_Some _ _ _ Hln) as Hlt_n.
  pose proof (lookup_lt_Some _ _ _ Hle) as Hlt_e.
  set (h' := (heap s ++ [ArrayObj ns]) ++ [ArrayObj es]) in *.
  set (r := {| e_nodes := length (heap s);
               e_edges := length (heap s ++ [ArrayObj ns]) |}) in *.
  assert (e_edges r = S (length (heap s))) as Hr_e
    by (cbn; rewrite length_app; cbn; lia).
  assert (∀ a o, heap s !! a = Some o → h' !! a = Some o) as Hext.
  { intros a o Ha. subst h'. rewrite <- app_assoc. by apply lookup_app_l_Some. }
  assert (array_elems h' (nodes s) = Some ns) as Hns'
    by (unfold array_elems; by rewrite (Hext _ _ Hln)).
  assert (array_elems h' (edges s) = Some es) as Hes'
    by (unfold array_elems; by rewrite (Hext _ _ Hle)).
  eexists. exists r. split; [exact Hsave|].
  cbn [heap nodes edges history].
  split_and!; try done.
  - apply last_snoc.
  - by apply lookup_ge_None_2.
  - rewrite Hr_e. apply lookup_ge_None_2. lia.
  - rewrite Hr_e. cbn. lia.
  - cbn. lia.
  - cbn. lia.
  - rewrite Hr_e. lia.
  - rewrite Hr_e. lia.
  - rewrite Hns'. unfold array_elems. subst h' r. cbn [e_nodes].
    by rewrite lookup_alloc_fst.
  - rewrite Hes'. unfold array_elems. subst h' r. cbn [e_edges].
    by rewrite lookup_alloc_snd.
  - intros ms Hms.
    apply (mutate_all_arrays h' ms (nodes s) (edges s) r); try done.
    + cbn. lia.
    + cbn. lia.
    + rewrite Hr_e. lia.
    + rewrite Hr_e. lia.
Qed.

Lemma saveToHistory_copies_arrays_witness :
  ∃ s' r,
    saveToHistory Sample.one_node = Some s' ∧
    last (history s') = Some r ∧
    read_entry (heap s') r = Some (Snapshot.mk [Sample.n1] []) ∧
    read_entry (mutate_all [WriteArray (nodes s') []; WriteArray (edges s') [0%nat]]
                  (heap s')) r
      = Some (Snapshot.mk [Sample.n1] []).
Proof.
  destruct (saveToHistory_copies_arrays Sample.one_node [Sample.n1] [])
    as (s' & r & Hs & Hl & Hn & _ & _ & _ & _ & Hread & Hmut);
    [reflexivity | reflexivity |].
  exists s', r. split_and!; [exact Hs | exact Hl | exact Hread |].
  apply Hmut. constructor; [by left|]. constructor; [by right|constructor].
Defined.

(** C5 as stated fails. The entry [saveToHistory] appends for a document
    of one node holds the live node object itself: an assignment to the
    label of that object changes what the entry reads as. *)
Lemma snapshot_deep_copy_counterexample :
  ∃ s' r,
    saveToHistory Sample.one_node = Some s' ∧
    last (history s') = Some r ∧
    live s' 0%nat ∧
    read_entry (heap s') r = Some (Snapshot.mk [Sample.n1] []) ∧
    read_entry (mutate (WriteNode 0%nat Sample.n1_relabelled) (heap s')) r
      = Some (Snapshot.mk [Sample.n1_relabelled] []) ∧
    ¬ isolated s' r.
Proof.
  eexists. eexists.
  split; [reflexivity|]. split; [reflexivity|].
  assert (live
    {| heap := [NodeObj Sample.n1; ArrayObj [0%nat]; ArrayObj [];
                ArrayObj [0%nat]; ArrayObj []];
       nodes := 1%nat; edges := 2%nat;
       history := [{| e_nodes := 3%nat; e_edges := 4%nat |}];
       historyIndex := 0 |} 0%nat) as Hlive.
  { right. right. left. exists [0%nat]. split; [reflexivity|]. by apply list_elem_of_singleton. }
  split; [exact Hlive|]. split; [reflexivity|]. split; [reflexivity|].
  intros Hiso.
  specialize (Hiso (WriteNode 0%nat Sample.n1_relabelled) Hlive).
  vm_compute in Hiso. discriminate Hiso.
Qed.
End Sharing.

(** ** The store as the value of the heap

    The store's [saveToHistory], [undo] and [redo] are what the same
    functions over the heap do to the values read from it. *)

Section Refinement.
Import Ref.

Lemma read_entry_extends h k r snap :
  read_entry h r = Some snap → read_entry (h ++ k) r = Some snap.
Proof.
  intros Hread.
  assert (∀ a o, h !! a = Some o → (h ++ k) !! a = Some o) as Hext
    by (intros a o; apply lookup_app_l_Some).
  pose proof Hread as Hread'. unfold read_entry in Hread'.
  apply bind_Some in Hread' as (vn & Hvn & (ve & Hve & _)%bind_Some).
  apply bind_Some in Hvn as (ns & Hns%array_elems_allocated & _).
  apply bind_Some in Hve as (es & Hes%array_elems_allocated & _).
  apply (read_entry_preserved h (h ++ k) r); [done| | | |].
  - unfold array_elems. by rewrite (Hext _ _ Hns), Hns.
  - unfold array_elems. by rewrite (Hext _ _ Hes), Hes.
  - intros a n Ha%node_at_allocated. unfold node_at. by rewrite (Hext _ _ Ha).
  - intros a e Ha%edge_at_allocated. unfold edge_at. by rewrite (Hext _ _ Ha).
Qed.

Lemma Forall2_slice {A B} (R : A → B → Prop) l k (i j : Z) :
  Forall2 R l k → Forall2 R (JS.slice l i j) (JS.slice k i j).
Proof.
  intros HR. unfold JS.slice. rewrite (Forall2_length _ _ _ HR).
  by apply Forall2_take, Forall2_drop.
Qed.

Lemma index_represents h (entries : list Entry) (snaps : list Snapshot.t) (i : Z) :
  mapM (read_entry h) entries = Some snaps →
  match JS.index entries i, JS.index snaps i with
  | Some r, Some snap => read_entry h r = Some snap
  | None, None => True
  | _, _ => False
  end.
Proof.
  intros HR%mapM_Some. unfold JS.index. destruct (i <? 0); [done|].
  destruct (entries !! Z.to_nat i) as [r|] eqn:Hr.
  - destruct (Forall2_lookup_l _ _ _ _ _ HR Hr) as (snap & -> & Hsnap). done.
  - apply lookup_ge_None in Hr. rewrite (Forall2_length _ _ _ HR) in Hr.
    by rewrite (lookup_ge_None_2 _ _ Hr).
Qed.

Lemma saveToHistory_represents r s :
  represents r s →
  ∃ r', saveToHistory r = Some r' ∧ represents r' (Store.saveToHistory s).
Proof.
  intros (Hn & He & Hh & Hi).
  destruct (saveToHistory_allocates r (Store.nodes s) (Store.edges s) Hn He)
    as (ns & es & _ & _ & Hsave & Hread).
  rewrite Hsave. eexists. split; [done|].
  set (h' := (heap r ++ [ArrayObj ns]) ++ [ArrayObj es]) in *.
  assert (∀ e snap, read_entry (heap r) e = Some snap → read_entry h' e = Some snap)
    as Hext.
  { intros e snap Hs. subst h'. by do 2 apply read_entry_extends. }
  unfold represents. cbn [heap nodes edges history historyIndex].
  pose proof (Hext {| e_nodes := nodes r; e_edges := edges r |}
                (Snapshot.mk (Store.nodes s) (Store.edges s))) as Hlive.
  unfold read_entry at 1 in Hlive. cbn [e_nodes e_edges] in Hlive.
  rewrite Hn, He in Hlive. specialize (Hlive eq_refl).
  apply bind_Some in Hlive as (vn & Hvn & (ve & Hve & [= -> ->])%bind_Some).
  split_and!; [done|done| |].
  - apply mapM_Some. cbn [Store.saveToHistory Store.set_history Store.history].
    apply Forall2_app.
    + rewrite Hi. apply Forall2_slice.
      apply mapM_Some in Hh. eapply Forall2_impl; [exact Hh|]. cbn. auto.
    + by constructor.
  - cbn. rewrite !length_app. cbn.
    apply mapM_Some, (Forall2_slice _ _ _ 0 (historyIndex r + 1)),
      Forall2_length in Hh.
    rewrite Hi in Hh at 2. rewrite Hh. done.
Qed.

Lemma read_entry_fields h e snap :
  read_entry h e = Some snap →
  read_nodes h (e_nodes e) = Some (Snapshot.nodes snap) ∧
  read_edges h (e_edges e) = Some (Snapshot.edges snap).
Proof.
  unfold read_entry.
  by intros (vn & Hvn & (ve & Hve & [= <-])%bind_Some)%bind_Some.
Qed.

Lemma undo_represents r s :
  represents r s →
  match undo r, Store.undo s with
  | Ok r', Ok s' => represents r' s'
  | TypeError, TypeError => True
  | _, _ => False
  end.
Proof.
  intros (Hn & He & Hh & Hi). unfold undo, Store.undo. rewrite Hi.
  destruct (0 <? Store.historyIndex s); [|done].
  pose proof (index_represents _ _ _ (Store.historyIndex s - 1) Hh) as Hidx.
  destruct (JS.index (history r) _) as [e|],
           (JS.index (Store.history s) _) as [snap|]; try done.
  apply read_entry_fields in Hidx as [Hvn Hve]. done.
Qed.

Lemma redo_represents r s :
  represents r s →
  match redo r, Store.redo s with
  | Ok r', Ok s' => represents r' s'
  | TypeError, TypeError => True
  | _, _ => False
  end.
Proof.
  intros (Hn & He & Hh & Hi). unfold redo, Store.redo. rewrite Hi.
  pose proof Hh as Hlen%mapM_Some%Forall2_length. rewrite Hlen.
  destruct (Store.historyIndex s <? Z.of_nat (length (Store.history s)) - 1); [|done].
  pose proof (index_represents _ _ _ (Store.historyIndex s + 1) Hh) as Hidx.
  destruct (JS.index (history r) _) as [e|],
           (JS.index (Store.history s) _) as [snap|]; try done.
  apply read_entry_fields in Hidx as [Hvn Hve]. done.
Qed.

(** An [undo] that takes effect makes the arrays of the entry under the
    new cursor the live arrays. *)
Lemma undo_entry_live r r' :
  undo r = Ok r' → 0 < historyIndex r →
  ∃ e, JS.index (history r') (historyIndex r') = Some e ∧
       nodes r' = e_nodes e ∧ edges r' = e_edges e.
Proof.
  unfold undo. intros Hundo Hpos.
  destruct (Z.ltb_spec 0 (historyIndex r)); [|exfalso; lia].
  destruct (JS.index (history r) (historyIndex r - 1)) as [e|] eqn:He; [|done].
  injection Hundo as <-. by exists e.
Qed.

(** After two commits and an [undo], the first entry's node array is the
    live one: emptying the live array in place empties the entry. *)
Lemma undo_entry_live_example :
  ∃ r1 r2 r3 e,
    saveToHistory Sample.one_node = Some r1 ∧
    saveToHistory r1 = Some r2 ∧
    undo r2 = Ok r3 ∧
    JS.index (history r3) (historyIndex r3) = Some e ∧
    nodes r3 = e_nodes e ∧
    read_entry (heap r3) e = Some (Snapshot.mk [Sample.n1] []) ∧
    read_entry (mutate (WriteArray (nodes r3) []) (heap r3)) e
      = Some (Snapshot.mk [] []).
Proof. do 4 eexists. by split_and!. Qed.
End Refinement.

(** * Further properties *)

(** ** The history log: round trips and repeated calls *)

Section HistoryWalk.
Import Store History.

Lemma index_eta (h : list Snapshot.t) (i : Z) p :
  JS.index h i = Some p → JS.index h i = Some (Snapshot.mk (Snapshot.nodes p) (Snapshot.edges p)).
Proof. by destruct p. Qed.

Lemma saveToHistory_committed s : committed (saveToHistory s).
Proof.
  unfold committed. rewrite saveToHistory_cursor.
  unfold saveToHistory, set_history. cbn [history nodes edges].
  rewrite length_app. cbn [length]. unfold JS.index.
  destruct (Z.ltb_spec (Z.of_nat (length (JS.slice (history s) 0 (historyIndex s + 1)) + 1) - 1) 0);
    [exfalso; lia|].
  replace (Z.to_nat (Z.of_nat (length (JS.slice (history s) 0 (historyIndex s + 1)) + 1) - 1))
    with (length (JS.slice (history s) 0 (historyIndex s + 1))) by lia.
  by apply list_lookup_middle.
Qed.

Lemma saveToHistory_settled s : settled (saveToHistory s).
Proof.
  right. split; [|apply saveToHistory_committed].
  destruct (saveToHistory_invariant s) as [[Hnil _]|Hr]; [|done].
  pose proof (saveToHistory_nonempty s) as Hlen. rewrite Hnil in Hlen.
  cbn in Hlen. lia.
Qed.

Lemma undo_settled s :
  settled s →
  ∃ s', undo s = Ok s' ∧ settled s' ∧ history s' = history s ∧
        historyIndex s' = Z.max (Z.min 0 (historyIndex s)) (historyIndex s - 1).
Proof.
  intros Hs. unfold undo.
  destruct (Z.ltb_spec 0 (historyIndex s)) as [E|E].
  - destruct Hs as [[_ Hi]|[Hr _]]; [exfalso; lia|].
    destruct (index_in_range (history s) (historyIndex s - 1)) as [p Hp]; [lia|].
    rewrite Hp. eexists. split; [done|]. split_and!; [|done|cbn; lia].
    right. split; [cbn; lia|]. unfold committed. cbn. by apply index_eta.
  - exists s. split_and!; [done|done|done|].
    destruct Hs as [[_ Hi]|[Hr _]]; lia.
Qed.

Lemma redo_settled s :
  settled s →
  ∃ s', redo s = Ok s' ∧ settled s' ∧ history s' = history s ∧
        historyIndex s' =
          Z.min (Z.max (historyIndex s) (Z.of_nat (length (history s)) - 1))
                (historyIndex s + 1).
Proof.
  intros Hs. unfold redo.
  assert (-1 ≤ historyIndex s) as Hlo by (destruct Hs as [[_ ?]|[? _]]; lia).
  destruct (Z.ltb_spec (historyIndex s) (Z.of_nat (length (history s)) - 1)) as [E|E].
  - destruct (index_in_range (history s) (historyIndex s + 1)) as [p Hp]; [lia|].
    rewrite Hp. eexists. split; [done|]. split_and!; [|done|cbn; lia].
    right. split; [cbn; lia|]. unfold committed. cbn. by apply index_eta.
  - exists s. split_and!; [done|done|done|].
    destruct Hs as [[Hh Hi]|[Hr _]]; [rewrite Hh; cbn|]; lia.
Qed.

Lemma call_settled c s : settled s → ∃ s', call c s = Ok s' ∧ settled s'.
Proof.
  destruct c; cbn; intros Hs.
  - eauto using saveToHistory_settled.
  - destruct (undo_settled s Hs) as (s' & ? & ? & _). eauto.
  - destruct (redo_settled s Hs) as (s' & ? & ? & _). eauto.
Qed.

(** X1. From the empty history, as long as only [saveToHistory], [undo]
    and [redo] run, the live nodes and edges are, after every call, the
    entry under the cursor (or the log is still empty): no call leaves a
    document the log does not hold. *)
Theorem history_calls_keep_document_committed (calls : list Call) (s : AppState) :
  history s = [] →
  historyIndex s = -1 →
  Forall (λ r, ∃ s', r = Ok s' ∧
                (history s' = [] ∨
                 JS.index (history s') (historyIndex s')
                   = Some (Snapshot.mk (nodes s') (edges s'))))
         (run calls s).
Proof.
  intros Hh Hi. assert (settled s) as Hs by (by left). clear Hh Hi.
  revert s Hs. induction calls as [|c calls IH]; intros s Hs; cbn; [constructor|].
  destruct (call_settled c s Hs) as (s' & Hc & Hs'). rewrite Hc.
  constructor; [|by apply IH].
  exists s'. split; [done|]. destruct Hs' as [[? _]|[_ ?]]; [by left|by right].
Qed.

Lemma history_calls_keep_document_committed_witness :
  Forall (λ r, ∃ s', r = Ok s' ∧
                (history s' = [] ∨
                 JS.index (history s') (historyIndex s')
                   = Some (Snapshot.mk (nodes s') (edges s'))))
         (run [Undo; SaveToHistory; SaveToHistory; Undo; Redo]
              (setNodes [Sample.n1] initial)).
Proof.
  apply (history_calls_keep_document_committed
           [Undo; SaveToHistory; SaveToHistory; Undo; Redo]
           (setNodes [Sample.n1] initial)); reflexivity.
Defined.

(** X2. When [redo] has an entry to go to (the cursor is a valid index
    below the last one) and the live document is the entry under the
    cursor, [redo] followed by [undo] returns the very state it started
    from. *)
Theorem redo_then_undo (s : AppState) :
  historyIndex s < Z.of_nat (length (history s)) - 1 →
  JS.index (history s) (historyIndex s) = Some (Snapshot.mk (nodes s) (edges s)) →
  ∃ s1, redo s = Ok s1 ∧ undo s1 = Ok s ∧ historyIndex s1 = historyIndex s + 1.
Proof.
  intros Hlt Hlive.
  assert (0 ≤ historyIndex s) as Hpos.
  { unfold JS.index in Hlive. by destruct (Z.ltb_spec (historyIndex s) 0). }
  unfold redo.
  destruct (Z.ltb_spec (historyIndex s) (Z.of_nat (length (history s)) - 1));
    [|exfalso; lia].
  destruct (index_in_range (history s) (historyIndex s + 1)) as [p Hp]; [lia|].
  rewrite Hp. eexists; split; [done|]. split; [|done].
  unfold undo. cbn [set_document historyIndex history].
  destruct (Z.ltb_spec 0 (historyIndex s + 1)); [|exfalso; lia].
  replace (historyIndex s + 1 - 1) with (historyIndex s) by lia.
  rewrite Hlive. cbn. by destruct s.
Qed.

Lemma redo_then_undo_witness :
  ∃ s1, redo Sample.rewound = Ok s1 ∧ undo s1 = Ok Sample.rewound ∧
        historyIndex s1 = historyIndex Sample.rewound + 1.
Proof. apply (redo_then_undo Sample.rewound); reflexivity. Defined.

Lemma exec_cons c calls s :
  exec (c :: calls) s =
    exec calls (match call c s with Ok s' => s' | TypeError => s end).
Proof. reflexivity. Qed.

Lemma undo_walk n : ∀ s,
  settled s →
  settled (exec (replicate n Undo) s) ∧
  history (exec (replicate n Undo) s) = history s ∧
  historyIndex (exec (replicate n Undo) s)
    = Z.max (Z.min 0 (historyIndex s)) (historyIndex s - Z.of_nat n).
Proof.
  induction n as [|n IH]; intros s Hs.
  - cbn. split_and!; [done|done|]. destruct Hs as [[_ ?]|[? _]]; lia.
  - change (replicate (S n) Undo) with (Undo :: replicate n Undo).
    rewrite exec_cons. cbn [call]. destruct (undo_settled s Hs) as (s' & -> & Hs' & Hh & Hi).
    destruct (IH s' Hs') as (Hs'' & Hh' & Hi').
    split_and!; [done|congruence|]. rewrite Hi', Hi. lia.
Qed.

Lemma redo_walk n : ∀ s,
  settled s →
  settled (exec (replicate n Redo) s) ∧
  history (exec (replicate n Redo) s) = history s ∧
  historyIndex (exec (replicate n Redo) s)
    = Z.min (Z.max (historyIndex s) (Z.of_nat (length (history s)) - 1))
            (historyIndex s + Z.of_nat n).
Proof.
  induction n as [|n IH]; intros s Hs.
  - cbn. split_and!; [done|done|].
    destruct Hs as [[Hh ?]|[? _]]; [rewrite Hh; cbn|]; lia.
  - change (replicate (S n) Redo) with (Redo :: replicate n Redo).
    rewrite exec_cons. cbn [call]. destruct (redo_settled s Hs) as (s' & -> & Hs' & Hh & Hi).
    destruct (IH s' Hs') as (Hs'' & Hh' & Hi').
    split_and!; [done|congruence|]. rewrite Hi', Hh, Hi.
    destruct Hs as [[Hnil ?]|[? _]]; [rewrite Hnil; cbn|]; lia.
Qed.

(** X3. From a state whose cursor is a valid index with the live document
    the entry under it, [n] calls of [undo] leave the log as it is, move
    the cursor back by [n] but not below 0, and leave as live document the
    entry under the new cursor; [n] calls of [redo] move it forward by [n]
    but not beyond the last index, likewise. *)
Theorem undo_redo_walk (n : nat) (s : AppState) :
  0 ≤ historyIndex s < Z.of_nat (length (history s)) →
  JS.index (history s) (historyIndex s) = Some (Snapshot.mk (nodes s) (edges s)) →
  let u := exec (replicate n Undo) s in
  let r := exec (replicate n Redo) s in
  (history u = history s ∧
   historyIndex u = Z.max 0 (historyIndex s - Z.of_nat n) ∧
   JS.index (history u) (historyIndex u) = Some (Snapshot.mk (nodes u) (edges u))) ∧
  (history r = history s ∧
   historyIndex r = Z.min (Z.of_nat (length (history s)) - 1) (historyIndex s + Z.of_nat n) ∧
   JS.index (history r) (historyIndex r) = Some (Snapshot.mk (nodes r) (edges r))).
Proof.
  intros Hr Hc u r. assert (settled s) as Hs by (by right).
  destruct (undo_walk n s Hs) as (Hsu & Hhu & Hiu).
  destruct (redo_walk n s Hs) as (Hsr & Hhr & Hir).
  fold u in Hsu, Hhu, Hiu. fold r in Hsr, Hhr, Hir.
  split; (split; [done|split]).
  - rewrite Hiu. lia.
  - destruct Hsu as [[Hnil _]|[_ ?]]; [|done].
    rewrite Hhu in Hnil. rewrite Hnil in Hr. cbn in Hr. lia.
  - rewrite Hir. lia.
  - destruct Hsr as [[Hnil _]|[_ ?]]; [|done].
    rewrite Hhr in Hnil. rewrite Hnil in Hr. cbn in Hr. lia.
Qed.

Lemma undo_redo_walk_witness :
  let s := saveToHistory (setNodes [Sample.n1; Sample.n2]
             (saveToHistory (setNodes [Sample.n1] (saveToHistory initial)))) in
  historyIndex (exec (replicate 5 Undo) s) = 0 ∧
  nodes (exec (replicate 1 Undo) s) = [Sample.n1] ∧
  historyIndex (exec (replicate 2 Redo) (exec (replicate 5 Undo) s)) = 2.
Proof.
  intros s.
  destruct (undo_redo_walk 5 s) as [(_ & Hi & _) _]; [by vm_compute|reflexivity|].
  split; [exact Hi|]. split; reflexivity.
Defined.
End HistoryWalk.

(** ** Integrity of the document under deletion *)

Section Integrity.
Import Store.

Lemma fmap_filter_sublist {A B} (f : A → B) (P : A → Prop) `{!∀ x, Decision (P x)}
    (l : list A) :
  (f <$> filter P l) `sublist_of` (f <$> l).
Proof. apply fmap_sublist, sublist_filter. Qed.

(** X4. The store's [deleteNode] keeps the document well formed: when no
    two nodes share an id, none do afterwards; and when every edge starts
    and ends at a live node, every remaining edge still does, so it leaves
    no dangling edge. *)
Theorem deleteNode_keeps_integrity (s : AppState) (nodeId : string) :
  ids_unique s →
  edges_valid s →
  ids_unique (deleteNode nodeId s) ∧ edges_valid (deleteNode nodeId s).
Proof.
  intros Hu Hv. split.
  - unfold ids_unique. rewrite deleteNode_nodes.
    eapply sublist_NoDup; [exact Hu|]. apply fmap_filter_sublist.
  - intros e He. rewrite deleteNode_edges in He.
    apply list_elem_of_filter in He as [[Hs Ht] He].
    destruct (Hv e He) as [(n & Hn & Hns) (m & Hm & Hmt)].
    rewrite deleteNode_nodes. split.
    + exists n. split; [|done]. apply list_elem_of_filter. split; [congruence|done].
    + exists m. split; [|done]. apply list_elem_of_filter. split; [congruence|done].
Qed.

Lemma linked_ids_unique : ids_unique Sample.linked.
Proof.
  unfold ids_unique. cbn. apply NoDup_cons. split.
  - intros Hin%list_elem_of_singleton. discriminate.
  - apply NoDup_singleton.
Qed.

Lemma linked_edges_valid : edges_valid Sample.linked.
Proof.
  intros e He. cbn in He. apply list_elem_of_singleton in He as ->. split.
  - exists Sample.n1. split; [|done]. cbn. apply elem_of_cons. by left.
  - exists Sample.n2. split; [|done]. cbn. apply elem_of_cons. right.
    by apply list_elem_of_singleton.
Qed.

Lemma deleteNode_keeps_integrity_witness :
  ids_unique (deleteNode "n1" Sample.linked) ∧
  edges_valid (deleteNode "n1" Sample.linked).
Proof.
  apply (deleteNode_keeps_integrity Sample.linked "n1").
  - exact linked_ids_unique.
  - exact linked_edges_valid.
Defined.

(** X5. Two deletions commute on the document and compose into one
    filter: deleting [a] then [b] leaves the nodes whose id is neither and
    the edges that touch neither, the same as deleting [b] then [a]. *)
Theorem deleteNode_commutes (s : AppState) (a b : string) :
  let ab := deleteNode b (deleteNode a s) in
  let ba := deleteNode a (deleteNode b s) in
  nodes ab = filter (λ n, Node.id n ≠ a ∧ Node.id n ≠ b) (nodes s) ∧
  edges ab =
    filter (λ e, (Edge.source e ≠ a ∧ Edge.target e ≠ a) ∧
                 (Edge.source e ≠ b ∧ Edge.target e ≠ b)) (edges s) ∧
  nodes ab = nodes ba ∧
  edges ab = edges ba.
Proof.
  intros ab ba. subst ab ba.
  rewrite !deleteNode_nodes, !deleteNode_edges, !list_filter_filter.
  split_and!.
  - apply list_filter_iff. tauto.
  - apply list_filter_iff. tauto.
  - apply list_filter_iff. tauto.
  - apply list_filter_iff. tauto.
Qed.
End Integrity.

(** ** The canvas handlers *)

Section CanvasHandlers.
Import Store.

(** X6. With the eraser, a click on a node does to the store exactly what
    the store's [deleteNode] does for that node's id; with any other tool
    the click leaves the store as it is. *)
Theorem eraser_click_is_deleteNode (s : AppState) (node : Node.t) (tool : Tool.t) :
  Canvas.onNodeClick Tool.eraser (nodes s) (edges s) node s
    = deleteNode (Node.id node) s ∧
  (tool ≠ Tool.eraser → Canvas.onNodeClick tool (nodes s) (edges s) node s = s).
Proof.
  split; [reflexivity|].
  intros Hne. unfold Canvas.onNodeClick. by rewrite decide_False by done.
Qed.

Lemma eraser_click_is_deleteNode_witness :
  Canvas.onNodeClick Tool.eraser (nodes Sample.linked) (edges Sample.linked)
      Sample.n1 Sample.linked
    = deleteNode "n1" Sample.linked ∧
  Canvas.onNodeClick Tool.select (nodes Sample.linked) (edges Sample.linked)
      Sample.n1 Sample.linked = Sample.linked.
Proof.
  destruct (eraser_click_is_deleteNode Sample.linked Sample.n1 Tool.select)
    as [He Hs].
  split; [exact He|]. apply Hs. discriminate.
Defined.

(** X7. With the eraser, a click on an edge removes exactly the edges with
    that edge's id, keeps the other edges in their order and every node,
    and commits: the last entry of the log is the new document and the
    cursor is on it. With any other tool the click leaves the store as it
    is. *)
Theorem onEdgeClick_frame (s : AppState) (edge : Edge.t) (tool : Tool.t) :
  let s' := Canvas.onEdgeClick Tool.eraser (edges s) edge s in
  (edges s' `sublist_of` edges s ∧
   (∀ e, e ∈ edges s' ↔ e ∈ edges s ∧ Edge.id e ≠ Edge.id edge) ∧
   (∀ k, k `sublist_of` edges s → Forall (λ e, Edge.id e ≠ Edge.id edge) k →
         k `sublist_of` edges s') ∧
   nodes s' = nodes s ∧
   last (history s') = Some (Snapshot.mk (nodes s') (edges s')) ∧
   historyIndex s' = Z.of_nat (length (history s')) - 1) ∧
  (tool ≠ Tool.eraser → Canvas.onEdgeClick tool (edges s) edge s = s).
Proof.
  intros s'. subst s'. split.
  - unfold Canvas.onEdgeClick. rewrite decide_True by done.
    cbn [saveToHistory set_history setEdges edges nodes history historyIndex].
    split_and!; try done.
    + apply sublist_filter.
    + intros e. rewrite list_elem_of_filter. tauto.
    + intros k. apply filter_greatest.
    + apply last_snoc.
  - intros Hne. unfold Canvas.onEdgeClick. by rewrite decide_False by done.
Qed.

Lemma onEdgeClick_frame_witness :
  edges (Canvas.onEdgeClick Tool.eraser (edges Sample.linked) Sample.e1 Sample.linked)
    `sublist_of` edges Sample.linked ∧
  Canvas.onEdgeClick Tool.rectangle (edges Sample.linked) Sample.e1 Sample.linked
    = Sample.linked.
Proof.
  destruct (onEdgeClick_frame Sample.linked Sample.e1 Tool.rectangle)
    as [(Hsub & _) Hother].
  split; [exact Hsub|]. apply Hother. discriminate.
Defined.

(** X8. A click on the pane does nothing with the select tool, and
    nothing while the wrapper is not mounted. With any other tool,
    the eraser included, it appends exactly one node after the nodes of
    the render: at the projected position, with an empty label, with the
    name of the tool as node type, 100 by 40 for the label tool and 120
    by 80 otherwise; it leaves the edges, commits the new document with
    the cursor on it, and sets the tool to select. *)
Theorem onPaneClick_creates
    (s : AppState) (tool : Tool.t) (bounds : DOMRect)
    (project : Position → Position) (now : Z) (event : MouseEvent) :
  Canvas.onPaneClick Tool.select (nodes s) (Some bounds) project now event s = s ∧
  Canvas.onPaneClick tool (nodes s) None project now event s = s ∧
  (tool ≠ Tool.select →
   let s' := Canvas.onPaneClick tool (nodes s) (Some bounds) project now event s in
   let n :=
     Node.mk ("node-" +:+ pretty now) "custom"
       (project {| x := clientX event - left bounds;
                   y := clientY event - top bounds |})
       (NodeData.mk "" (Tool.name tool)
          (Some (if decide (tool = Tool.label) then 100 else 120))
          (Some (if decide (tool = Tool.label) then 40 else 80))
          None None None) in
   nodes s' = nodes s ++ [n] ∧
   edges s' = edges s ∧
   last (history s') = Some (Snapshot.mk (nodes s') (edges s')) ∧
   historyIndex s' = Z.of_nat (length (history s')) - 1 ∧
   currentTool s' = Tool.select).
Proof.
  split_and!.
  - reflexivity.
  - unfold Canvas.onPaneClick. by destruct (decide (tool = Tool.select)).
  - intros Hne s' n. subst s' n. unfold Canvas.onPaneClick.
    rewrite decide_False by done.
    cbn [saveToHistory set_history setNodes setCurrentTool
         nodes edges history historyIndex currentTool].
    split_and!; try done.
    + do 3 f_equal. f_equal. by destruct tool.
    + apply last_snoc.
Qed.

Lemma onPaneClick_creates_witness :
  let s := Sample.linked in
  let s' :=
    Canvas.onPaneClick Tool.eraser (nodes s) (Some {| left := 0; top := 0 |})
      (λ p, p) 1700000000000 {| clientX := 5; clientY := 7 |} s in
  ∃ n, nodes s' = nodes s ++ [n] ∧
       NodeData.nodeType (Node.data n) = "eraser" ∧
       currentTool s' = Tool.select.
Proof.
  intros s s'.
  destruct (onPaneClick_creates s Tool.eraser {| left := 0; top := 0 |}
              (λ p, p) 1700000000000 {| clientX := 5; clientY := 7 |})
    as (_ & _ & Hc).
  destruct Hc as (Hn & _ & _ & _ & Ht); [discriminate|].
  eexists. split; [exact Hn|]. split; [reflexivity|exact Ht].
Defined.

Lemma onPaneClick_nodes s tool bounds project now event :
  tool ≠ Tool.select →
  ∃ n, nodes (Canvas.onPaneClick tool (nodes s) (Some bounds) project now event s)
         = nodes s ++ [n] ∧
       Node.id n = "node-" +:+ pretty now.
Proof.
  intros Hne. unfold Canvas.onPaneClick. rewrite decide_False by done.
  eexists. split; reflexivity.
Qed.

(** X9. The id of a created node is determined by the clock alone: clicks
    at different clock values create nodes with different ids, clicks at
    the same clock value create nodes with the same id. So a click keeps
    the ids of the document unique exactly when no node of the render
    already has the id of that clock value. *)
Theorem onPaneClick_ids
    (s : AppState) (tool : Tool.t) (bounds : DOMRect)
    (project : Position → Position) (now now' : Z) (event event' : MouseEvent) :
  tool ≠ Tool.select →
  let s1 := Canvas.onPaneClick tool (nodes s) (Some bounds) project now event s in
  let s2 := Canvas.onPaneClick tool (nodes s) (Some bounds) project now' event' s in
  (∃ n1 n2, last (nodes s1) = Some n1 ∧ last (nodes s2) = Some n2 ∧
            Node.id n1 = "node-" +:+ pretty now ∧
            (Node.id n1 = Node.id n2 ↔ now = now')) ∧
  (ids_unique s →
   (ids_unique s1 ↔ ∀ n, n ∈ nodes s → Node.id n ≠ "node-" +:+ pretty now)).
Proof.
  intros Hne s1 s2.
  destruct (onPaneClick_nodes s tool bounds project now event Hne) as (n1 & Hn1 & Hid1).
  destruct (onPaneClick_nodes s tool bounds project now' event' Hne) as (n2 & Hn2 & Hid2).
  fold s1 in Hn1. fold s2 in Hn2. split.
  - exists n1, n2. rewrite Hn1, Hn2, !last_snoc.
    split; [done|]. split; [done|]. split; [done|]. rewrite Hid1, Hid2. split.
    + intros Heq. cbn in Heq. injection Heq as Heq. by apply (inj pretty).
    + by intros ->.
  - intros Hu. unfold ids_unique in *. rewrite Hn1, fmap_app. cbn [fmap list_fmap].
    rewrite Hid1.
    rewrite NoDup_app. split.
    + intros (_ & Hdisj & _) n Hn Heq.
      apply (Hdisj (Node.id n)); [by apply list_elem_of_fmap_2|].
      rewrite Heq. by apply list_elem_of_singleton.
    + intros Hfresh. split_and!; [done| |apply NoDup_singleton].
      intros i [n [-> Hn]]%list_elem_of_fmap Hi%list_elem_of_singleton.
      by apply (Hfresh n).
Qed.

Lemma onPaneClick_ids_witness :
  let s := Sample.linked in
  let click now :=
    Canvas.onPaneClick Tool.circle (nodes s) (Some {| left := 0; top := 0 |})
      (λ p, p) now {| clientX := 5; clientY := 7 |} s in
  ∃ n1 n2, last (nodes (click 1700000000000)) = Some n1 ∧
           last (nodes (click 1700000000001)) = Some n2 ∧
           Node.id n1 ≠ Node.id n2.
Proof.
  intros s click.
  destruct (onPaneClick_ids s Tool.circle {| left := 0; top := 0 |} (λ p, p)
              1700000000000 1700000000001
              {| clientX := 5; clientY := 7 |} {| clientX := 5; clientY := 7 |})
    as [(n1 & n2 & H1 & H2 & _ & Hiff) _]; [discriminate|].
  exists n1, n2. split; [exact H1|]. split; [exact H2|].
  intros Heq. apply Hiff in Heq. discriminate Heq.
Defined.
End CanvasHandlers.

(** ** Editing a node: label and style *)

Section NodeEdits.
Import Store.

Lemma fmap_update_node_lookup id updates (nodes : list Node.t) i n :
  nodes !! i = Some n →
  (update_node id updates <$> nodes) !! i = Some (update_node id updates n).
Proof. intros Hn. by rewrite list_lookup_fmap, Hn. Qed.

Lemma fmap_update_node_ids id updates (nodes : list Node.t) :
  Node.id <$> (update_node id updates <$> nodes) = Node.id <$> nodes.
Proof.
  rewrite <- list_fmap_compose. apply list_fmap_ext. intros i n _. cbn.
  apply update_node_id.
Qed.

(** X10. [updateNodeData], the same in both controllers, replaces the
    store's nodes by the nodes of the render with the update applied: it
    keeps their number, order, ids, types and positions, leaves every node
    with another id as it is, gives each node with the id the data spread
    with the update, leaves the edges, and commits the new document with
    the cursor on it. *)
Theorem updateNodeData_frame
    (id : string) (nodes : list Node.t) (updates : NodeData.Partial) (s : AppState) :
  let s' := PopoverNode.updateNodeData id nodes updates s in
  ContextMenuNode.updateNodeData id nodes updates s = s' ∧
  length (Store.nodes s') = length nodes ∧
  Node.id <$> Store.nodes s' = Node.id <$> nodes ∧
  Node.type <$> Store.nodes s' = Node.type <$> nodes ∧
  Node.position <$> Store.nodes s' = Node.position <$> nodes ∧
  (∀ i n, nodes !! i = Some n → Node.id n ≠ id → Store.nodes s' !! i = Some n) ∧
  (∀ i n, nodes !! i = Some n → Node.id n = id →
          ∃ n', Store.nodes s' !! i = Some n' ∧
                Node.data n' = NodeData.spread (Node.data n) updates) ∧
  edges s' = edges s ∧
  last (history s') = Some (Snapshot.mk (Store.nodes s') (edges s')) ∧
  historyIndex s' = Z.of_nat (length (history s')) - 1.
Proof.
  intros s'. subst s'.
  change (Store.nodes (PopoverNode.updateNodeData id nodes updates s))
    with (update_node id updates <$> nodes).
  split_and!; try done.
  - by rewrite length_fmap.
  - rewrite <- list_fmap_compose. apply list_fmap_ext. intros i n _. cbn.
    apply update_node_id.
  - rewrite <- list_fmap_compose. apply list_fmap_ext. intros i n _. cbn.
    unfold update_node. by destruct (decide _).
  - rewrite <- list_fmap_compose. apply list_fmap_ext. intros i n _. cbn.
    unfold update_node. by destruct (decide _).
  - intros i n Hn Hne. rewrite (fmap_update_node_lookup _ _ _ _ _ Hn).
    unfold update_node. by rewrite decide_False by done.
  - intros i n Hn Heq. rewrite (fmap_update_node_lookup _ _ _ _ _ Hn).
    unfold update_node. rewrite decide_True by done. by eexists.
  - cbn. apply last_snoc.
Qed.

(** X11. Choosing a background color, a text color or a border style
    writes that one field of the node's data and keeps its label, node
    type, size and the other two style fields; it closes the picker it
    came from. *)
Theorem style_change_writes_one_field
    (id : string) (nodes : list Node.t) (d : NodeData.t) (color : string)
    (b : BorderStyle) (s : AppState) (l : PopoverNode.Local) :
  props_data id nodes = Some d →
  let bg := PopoverNode.handleColorChange id nodes color PopoverNode.background s l in
  let tx := PopoverNode.handleColorChange id nodes color PopoverNode.text s l in
  let bd := PopoverNode.handleBorderChange id nodes b s l in
  (props_data id (Store.nodes bg.1) =
     Some (NodeData.mk (NodeData.label d) (NodeData.nodeType d) (NodeData.width d)
             (NodeData.height d) (Some color) (NodeData.textColor d)
             (NodeData.borderStyle d)) ∧
   PopoverNode.showColorPicker bg.2 = None) ∧
  (props_data id (Store.nodes tx.1) =
     Some (NodeData.mk (NodeData.label d) (NodeData.nodeType d) (NodeData.width d)
             (NodeData.height d) (NodeData.backgroundColor d) (Some color)
             (NodeData.borderStyle d)) ∧
   PopoverNode.showColorPicker tx.2 = None) ∧
  (props_data id (Store.nodes bd.1) =
     Some (NodeData.mk (NodeData.label d) (NodeData.nodeType d) (NodeData.width d)
             (NodeData.height d) (NodeData.backgroundColor d) (NodeData.textColor d)
             (Some b)) ∧
   PopoverNode.showBorderPicker bd.2 = false).
Proof.
  intros Hd bg tx bd. subst bg tx bd.
  split_and!; try done.
  - change (Store.nodes (PopoverNode.handleColorChange id nodes color
                           PopoverNode.background s l).1)
      with (update_node id
              (NodeData.mkPartial None None None None (Some color) None None)
              <$> nodes).
    by rewrite (props_data_update _ _ _ _ Hd).
  - change (Store.nodes (PopoverNode.handleColorChange id nodes color
                           PopoverNode.text s l).1)
      with (update_node id
              (NodeData.mkPartial None None None None None (Some color) None)
              <$> nodes).
    by rewrite (props_data_update _ _ _ _ Hd).
  - change (Store.nodes (PopoverNode.handleBorderChange id nodes b s l).1)
      with (update_node id
              (NodeData.mkPartial None None None None None None (Some b))
              <$> nodes).
    by rewrite (props_data_update _ _ _ _ Hd).
Qed.

Lemma style_change_writes_one_field_witness :
  props_data "n1"
    (Store.nodes (PopoverNode.handleColorChange "n1" (nodes Sample.linked) "#dbeafe"
                    PopoverNode.background Sample.linked Sample.popover_idle).1)
  = Some (NodeData.mk "" "rectangle" (Some 120) (Some 80) (Some "#dbeafe") None None).
Proof.
  destruct (style_change_writes_one_field "n1" (nodes Sample.linked)
              (Sample.plain "rectangle") "#dbeafe" dotted Sample.linked
              Sample.popover_idle) as [[Hbg _] _]; [reflexivity|].
  exact Hbg.
Defined.

Lemma or_string_empty (x : string) : JS.or_string x "" = x.
Proof. unfold JS.or_string. by destruct (decide (x = "")). Qed.

(** X12. Committing the label buffer (Enter without Shift, or blur)
    writes the buffer into the label of the node and keeps the rest of its
    data; it clears the editing target, leaves the edges and commits the
    new document with the cursor on it. Both controllers do the same to
    the store, and a key event that is Enter without Shift is that
    commit. *)
Theorem text_submit_writes_label
    (id label : string) (nodes : list Node.t) (d : NodeData.t) (e : KeyboardEvent)
    (s : AppState) (l : PopoverNode.Local) (m : ContextMenuNode.Local) :
  props_data id nodes = Some d →
  key e = "Enter" →
  shiftKey e = false →
  let p := PopoverNode.handleTextSubmit id label nodes s l in
  PopoverNode.handleKeyDown id label nodes d e s l = p ∧
  PopoverNode.handleBlur id label nodes s l = p ∧
  (ContextMenuNode.handleKeyDown id label nodes d e s m).1 = p.1 ∧
  (ContextMenuNode.handleBlur id label nodes s m).1 = p.1 ∧
  props_data id (Store.nodes p.1) =
    Some (NodeData.mk label (NodeData.nodeType d) (NodeData.width d)
            (NodeData.height d) (NodeData.backgroundColor d) (NodeData.textColor d)
            (NodeData.borderStyle d)) ∧
  (∀ i n, nodes !! i = Some n → Node.id n ≠ id → Store.nodes p.1 !! i = Some n) ∧
  editingNodeId p.1 = None ∧
  edges p.1 = edges s ∧
  last (history p.1) = Some (Snapshot.mk (Store.nodes p.1) (edges p.1)) ∧
  historyIndex p.1 = Z.of_nat (length (history p.1)) - 1 ∧
  PopoverNode.isEditing p.2 = false.
Proof.
  intros Hd Hk Hshift p. subst p.
  change (Store.nodes (PopoverNode.handleTextSubmit id label nodes s l).1)
    with (update_node id
            (NodeData.mkPartial (Some label) None None None None None None)
            <$> nodes).
  split_and!; try done.
  - unfold PopoverNode.handleKeyDown. by rewrite Hk, Hshift.
  - unfold ContextMenuNode.handleKeyDown. by rewrite Hk, Hshift.
  - by rewrite (props_data_update _ _ _ _ Hd).
  - intros i n Hn Hne. rewrite (fmap_update_node_lookup _ _ _ _ _ Hn).
    unfold update_node. by rewrite decide_False by done.
  - cbn. apply last_snoc.
Qed.

Lemma text_submit_writes_label_witness :
  props_data "n1"
    (Store.nodes (PopoverNode.handleKeyDown "n1" "start" (nodes Sample.linked)
                    (Sample.plain "rectangle") {| key := "Enter"; shiftKey := false |}
                    Sample.linked Sample.popover_idle).1)
  = Some (NodeData.mk "start" "rectangle" (Some 120) (Some 80) None None None).
Proof.
  destruct (text_submit_writes_label "n1" "start" (nodes Sample.linked)
              (Sample.plain "rectangle") {| key := "Enter"; shiftKey := false |}
              Sample.linked Sample.popover_idle Sample.menu_idle)
    as (Hkey & _ & _ & _ & Hprops & _); [reflexivity..|].
  rewrite Hkey. exact Hprops.
Defined.

(** X13. Escape cancels the label edit without touching the document or
    the log: nodes, edges, history and cursor stay, the editing target is
    cleared and the buffer goes back to the label of the node's data. Any
    other key that is not Enter without Shift (Shift+Enter included)
    changes nothing at all. Both controllers behave so. *)
Theorem key_down_cancel_and_ignore
    (id label : string) (nodes : list Node.t) (d : NodeData.t) (e : KeyboardEvent)
    (s : AppState) (l : PopoverNode.Local) (m : ContextMenuNode.Local) :
  key e ≠ "Enter" ∨ shiftKey e = true →
  let p := PopoverNode.handleKeyDown id label nodes d e s l in
  let c := ContextMenuNode.handleKeyDown id label nodes d e s m in
  (key e = "Escape" →
   p.1 = setEditingNodeId None s ∧ c.1 = setEditingNodeId None s ∧
   Store.nodes p.1 = Store.nodes s ∧ edges p.1 = edges s ∧
   history p.1 = history s ∧ historyIndex p.1 = historyIndex s ∧
   editingNodeId p.1 = None ∧
   PopoverNode.label p.2 = NodeData.label d ∧ PopoverNode.isEditing p.2 = false ∧
   ContextMenuNode.label c.2 = NodeData.label d ∧
   ContextMenuNode.isEditing c.2 = false) ∧
  (key e ≠ "Escape" → p = (s, l) ∧ c = (s, m)).
Proof.
  intros Hnot p c. subst p c.
  unfold PopoverNode.handleKeyDown, ContextMenuNode.handleKeyDown.
  assert (bool_decide (key e = "Enter") && negb (shiftKey e) = false) as ->.
  { destruct Hnot as [Hne| ->].
    - by rewrite bool_decide_eq_false_2.
    - by rewrite andb_false_r. }
  split.
  - intros Hesc. rewrite !bool_decide_eq_true_2 by done. cbn.
    rewrite or_string_empty. by split_and!.
  - intros Hne. by rewrite !bool_decide_eq_false_2 by done.
Qed.

Lemma key_down_cancel_and_ignore_witness :
  (PopoverNode.handleKeyDown "n1" "draft" (nodes Sample.linked)
     (Sample.plain "rectangle") {| key := "Escape"; shiftKey := false |}
     Sample.linked Sample.popover_idle).1 = setEditingNodeId None Sample.linked ∧
  PopoverNode.handleKeyDown "n1" "draft" (nodes Sample.linked)
     (Sample.plain "rectangle") {| key := "Enter"; shiftKey := true |}
     Sample.linked Sample.popover_idle = (Sample.linked, Sample.popover_idle).
Proof.
  split.
  - destruct (key_down_cancel_and_ignore "n1" "draft" (nodes Sample.linked)
                (Sample.plain "rectangle") {| key := "Escape"; shiftKey := false |}
                Sample.linked Sample.popover_idle Sample.menu_idle)
      as [Hesc _]; [left; discriminate|].
    destruct Hesc as [Hp _]; [reflexivity|]. exact Hp.
  - destruct (key_down_cancel_and_ignore "n1" "draft" (nodes Sample.linked)
                (Sample.plain "rectangle") {| key := "Enter"; shiftKey := true |}
                Sample.linked Sample.popover_idle Sample.menu_idle)
      as [_ Hign]; [by right|].
    destruct Hign as [Hp _]; [discriminate|]. exact Hp.
Defined.
End NodeEdits.

(** ** Rendering a node *)

Section Rendering.

Lemma or_number_nonzero (x : option Z) (d : Z) : d ≠ 0 → JS.or_number x d ≠ 0.
Proof.
  intros Hd. unfold JS.or_number. destruct x as [v|]; [|done].
  destruct (Z.eqb_spec v 0); done.
Qed.

(** X14. A node of type circle is rendered square whatever its stored
    width and height are: in both variants of the component the style's
    width and height are the smaller of the two stored sizes, each
    replaced by 80 when absent or zero; that size is never zero and the
    border radius is 50%. *)
Theorem circle_rendered_square (data : NodeData.t) (selected isDarkMode : bool) :
  NodeData.nodeType data = "circle" →
  let size := Z.min (JS.or_number (NodeData.width data) 80)
                    (JS.or_number (NodeData.height data) 80) in
  let p := PopoverNode.getNodeStyle data selected isDarkMode in
  let c := ContextMenuNode.element_style data selected isDarkMode in
  size ≠ 0 ∧
  (Style.width p = size ∧ Style.height p = size ∧ Style.borderRadius p = "50%") ∧
  (Style.width c = size ∧ Style.height c = size ∧ Style.borderRadius c = "50%").
Proof.
  intros Hcircle size p c.
  assert (size ≠ 0) as Hsize.
  { pose proof (or_number_nonzero (NodeData.width data) 80).
    pose proof (or_number_nonzero (NodeData.height data) 80). subst size. lia. }
  assert (∀ d, JS.or_number (circleSize data) d = size) as Hor.
  { intros d. unfold circleSize. rewrite decide_True by done. cbn.
    fold size. by destruct (Z.eqb_spec size 0). }
  subst p c. cbn. rewrite !Hor. by rewrite !decide_True by done.
Qed.

Lemma circle_rendered_square_witness :
  Style.width (PopoverNode.getNodeStyle (Sample.plain "circle") false false) = 80 ∧
  Style.height (PopoverNode.getNodeStyle (Sample.plain "circle") false false) = 80.
Proof.
  destruct (circle_rendered_square (Sample.plain "circle") false false)
    as (_ & (Hw & Hh & _) & _); [reflexivity|].
  split; [exact Hw|exact Hh].
Defined.
End Rendering.

(** ** Resizing any node *)

Section ResizeMoves.
Import Store.

(** What a move of the popover controller writes, for a resize started on
    one of the four handles. *)
Lemma popover_move_update id data nodes e0 h l e :
  ∃ w hh,
    (∀ s, PopoverNode.handleMouseMove id
            (PopoverNode.handleResizeStart data nodes e0 (corner_name h) l).1 e s
          = PopoverNode.updateNodeData id nodes (size_update w hh) s) ∧
    40 ≤ w ∧ 40 ≤ hh ∧
    (NodeData.nodeType data ≠ "circle" → 60 ≤ w).
Proof.
  unfold PopoverNode.handleMouseMove, PopoverNode.handleResizeStart.
  cbn [fst PopoverNode.handle PopoverNode.startX PopoverNode.startY
       PopoverNode.startWidth PopoverNode.startHeight PopoverNode.data
       PopoverNode.nodes].
  destruct h; cbn [corner_name];
    repeat (rewrite decide_False by (intros ?; discriminate));
    try rewrite decide_True by reflexivity; cbv beta iota;
    destruct (decide (NodeData.nodeType data = "circle"));
    (eexists _, _; split; [intros s; reflexivity|]; split_and!; try done; lia).
Qed.

(** What a move of the context-menu controller writes: the sizes depend
    on the node type of the [data] of the render, not on the rest of it. *)
Lemma context_move_update id data data0 e0 h l e :
  ∃ w hh,
    (∀ d nodes s, NodeData.nodeType d = NodeData.nodeType data →
       ContextMenuNode.handleResizeMove id d nodes
         (ContextMenuNode.handleResizeStart data0 e0 (corner_name h) l) e s
       = ContextMenuNode.updateNodeData id nodes (size_update w hh) s) ∧
    30 ≤ w ∧ 30 ≤ hh ∧
    (NodeData.nodeType data ≠ "circle" → 50 ≤ w).
Proof.
  unfold ContextMenuNode.handleResizeMove, ContextMenuNode.handleResizeStart.
  cbn [ContextMenuNode.resizeHandle ContextMenuNode.isResizing
       ContextMenuNode.startPos ContextMenuNode.startSize
       ContextMenuNode.width ContextMenuNode.height x y negb orb].
  destruct (decide (NodeData.nodeType data = "circle")) as [Hc|Hc];
    destruct h; cbn [corner_name];
    (rewrite bool_decide_eq_false_2 by (intros ?; discriminate));
    repeat match goal with |- context [JS.includes ?a ?b] =>
      let v := eval vm_compute in (JS.includes a b) in
      change (JS.includes a b) with v end;
    cbv beta iota;
    (eexists _, _; split;
     [intros d nodes s Hd;
      first [rewrite decide_True by congruence | rewrite decide_False by congruence];
      reflexivity
     |split_and!; try done; lia]).
Qed.

Lemma update_node_sizes id w hh (nodes : list Node.t) n :
  n ∈ update_node id (size_update w hh) <$> nodes →
  Node.id n = id →
  NodeData.width (Node.data n) = Some w ∧ NodeData.height (Node.data n) = Some hh.
Proof.
  intros [m [-> Hm]]%list_elem_of_fmap. rewrite update_node_id. intros Hid.
  unfold update_node. by rewrite decide_True by done.
Qed.

(** X15. No pointer move of a resize writes a size below the floor. In
    the popover controller the width and height written are at least 40,
    and the width at least 60 unless the node is a circle; in the
    context-menu controller they are at least 30, and the width at least
    50 unless the node is a circle. *)
Theorem resize_keeps_floor
    (id : string) (data data0 : NodeData.t) (nodes : list Node.t)
    (e0 e : MouseEvent) (h : Corner) (lp : PopoverNode.Local)
    (lm : ContextMenuNode.Local) (s : AppState) :
  let p :=
    PopoverNode.handleMouseMove id
      (PopoverNode.handleResizeStart data nodes e0 (corner_name h) lp).1 e s in
  let c :=
    ContextMenuNode.handleResizeMove id data nodes
      (ContextMenuNode.handleResizeStart data0 e0 (corner_name h) lm) e s in
  (∀ n, n ∈ Store.nodes p → Node.id n = id →
        ∃ w hh, NodeData.width (Node.data n) = Some w ∧
                NodeData.height (Node.data n) = Some hh ∧
                40 ≤ w ∧ 40 ≤ hh ∧
                (NodeData.nodeType data ≠ "circle" → 60 ≤ w)) ∧
  (∀ n, n ∈ Store.nodes c → Node.id n = id →
        ∃ w hh, NodeData.width (Node.data n) = Some w ∧
                NodeData.height (Node.data n) = Some hh ∧
                30 ≤ w ∧ 30 ≤ hh ∧
                (NodeData.nodeType data ≠ "circle" → 50 ≤ w)).
Proof.
  intros p c. subst p c. split.
  - destruct (popover_move_update id data nodes e0 h lp e)
      as (w & hh & Heq & Hw & Hh & Hc).
    rewrite Heq. intros n Hn Hid. exists w, hh.
    destruct (update_node_sizes id w hh nodes n Hn Hid) as [-> ->]. by split_and!.
  - destruct (context_move_update id data data0 e0 h lm e)
      as (w & hh & Heq & Hw & Hh & Hc).
    rewrite (Heq data nodes s eq_refl). intros n Hn Hid. exists w, hh.
    destruct (update_node_sizes id w hh nodes n Hn Hid) as [-> ->]. by split_and!.
Qed.

Lemma saveToHistory_step (s : AppState) :
  -1 ≤ historyIndex s < Z.of_nat (length (history s)) →
  Z.of_nat (length (history (saveToHistory s))) = historyIndex s + 2 ∧
  historyIndex (saveToHistory s) = historyIndex s + 1.
Proof.
  intros Hr. rewrite saveToHistory_cursor, saveToHistory_truncates by lia.
  rewrite length_app, length_take. cbn [length]. lia.
Qed.

Lemma updateNodeData_step id ns u (s : AppState) :
  -1 ≤ historyIndex s < Z.of_nat (length (history s)) →
  let s1 := PopoverNode.updateNodeData id ns u s in
  Z.of_nat (length (history s1)) = historyIndex s + 2 ∧
  historyIndex s1 = historyIndex s + 1 ∧
  last (history s1) = Some (Snapshot.mk (nodes s1) (edges s1)).
Proof.
  intros Hr s1.
  destruct (saveToHistory_step (setNodes (update_node id u <$> ns) s) Hr)
    as [Hlen Hidx].
  split_and!; [exact Hlen|exact Hidx|]. cbn. apply last_snoc.
Qed.

Lemma popover_drag_commits id data ns e0 h lp moves : ∀ s i s',
  -1 ≤ historyIndex s < Z.of_nat (length (history s)) →
  PopoverNode.drag id
    (PopoverNode.handleResizeStart data ns e0 (corner_name h) lp).1 moves s !! i
    = Some s' →
  Z.of_nat (length (history s')) = historyIndex s + 2 + Z.of_nat i ∧
  last (history s') = Some (Snapshot.mk (nodes s') (edges s')).
Proof.
  induction moves as [|e moves IH]; intros s i s' Hr Hi; [done|].
  cbn [PopoverNode.drag] in Hi.
  destruct (popover_move_update id data ns e0 h lp e) as (w & hh & Heq & _).
  rewrite !Heq in Hi.
  destruct (updateNodeData_step id ns (size_update w hh) s Hr) as (Hlen & Hidx & Hlast).
  destruct i as [|i].
  - change (Some (PopoverNode.updateNodeData id ns (size_update w hh) s) = Some s') in Hi.
    injection Hi as <-. split; [lia|done].
  - cbn [lookup list_lookup] in Hi.
    destruct (IH (PopoverNode.updateNodeData id ns (size_update w hh) s) i s')
      as [Hl ?]; [lia|exact Hi|]. split; [lia|done].
Qed.

Lemma context_drag_commits id data0 e0 h lm moves : ∀ s data i s',
  props_data id (nodes s) = Some data →
  -1 ≤ historyIndex s < Z.of_nat (length (history s)) →
  ContextMenuNode.drag id
    (ContextMenuNode.handleResizeStart data0 e0 (corner_name h) lm) moves s !! i
    = Some s' →
  Z.of_nat (length (history s')) = historyIndex s + 2 + Z.of_nat i ∧
  last (history s') = Some (Snapshot.mk (nodes s') (edges s')).
Proof.
  induction moves as [|e moves IH]; intros s data i s' Hprops Hr Hi; [done|].
  cbn [ContextMenuNode.drag] in Hi. rewrite Hprops in Hi.
  destruct (context_move_update id data data0 e0 h lm e) as (w & hh & Heq & _).
  rewrite !(Heq data (nodes s) s eq_refl) in Hi.
  destruct (updateNodeData_step id (nodes s) (size_update w hh) s Hr)
    as (Hlen & Hidx & Hlast).
  change (ContextMenuNode.updateNodeData id (nodes s) (size_update w hh) s)
    with (PopoverNode.updateNodeData id (nodes s) (size_update w hh) s) in Hi.
  destruct i as [|i].
  - change (Some (PopoverNode.updateNodeData id (nodes s) (size_update w hh) s) = Some s')
      in Hi.
    injection Hi as <-. split; [lia|done].
  - cbn [lookup list_lookup] in Hi.
    destruct (IH (PopoverNode.updateNodeData id (nodes s) (size_update w hh) s)
                 (NodeData.spread data (size_update w hh)) i s') as [Hl ?];
      [by apply props_data_update | lia | exact Hi |].
    split; [lia|done].
Qed.

Lemma commits_from_history states : ∀ s i s',
  commits_from s states →
  -1 ≤ historyIndex s < Z.of_nat (length (history s)) →
  states !! i = Some s' →
  history s' = take (Z.to_nat (historyIndex s + 1)) (history s)
                 ++ (snapshot_of <$> take (S i) states) ∧
  historyIndex s' = Z.of_nat (length (history s')) - 1.
Proof.
  induction states as [|t states IH]; intros s i s' Hchain Hr Hi; [done|].
  destruct Hchain as [[ns ->] Hrest].
  set (t := saveToHistory (setNodes ns s)) in *.
  assert (history t = take (Z.to_nat (historyIndex s + 1)) (history s)
                        ++ [snapshot_of t]) as Ht
    by (unfold t; by rewrite saveToHistory_truncates by (cbn; lia)).
  destruct (saveToHistory_step (setNodes ns s) Hr) as [Hlen Hidx].
  fold t in Hlen, Hidx. cbn [setNodes historyIndex] in Hlen, Hidx.
  destruct i as [|i].
  - change (Some t = Some s') in Hi. injection Hi as <-. split; [exact Ht|lia].
  - cbn [lookup list_lookup] in Hi.
    destruct (IH t i s' Hrest ltac:(lia) Hi) as [Hh Hc]. split; [|done].
    rewrite Hh, (take_ge (history t)) by lia.
    rewrite Ht, <- app_assoc. done.
Qed.

Lemma popover_drag_commits_from id data ns e0 h lp moves : ∀ s,
  commits_from s
    (PopoverNode.drag id
       (PopoverNode.handleResizeStart data ns e0 (corner_name h) lp).1 moves s).
Proof.
  induction moves as [|e moves IH]; intros s; [done|].
  cbn [PopoverNode.drag]. cbv zeta.
  destruct (popover_move_update id data ns e0 h lp e) as (w & hh & Heq & _).
  rewrite !Heq. split; [by eexists|apply IH].
Qed.

Lemma context_drag_commits_from id data0 e0 h lm moves : ∀ s data,
  props_data id (nodes s) = Some data →
  commits_from s
    (ContextMenuNode.drag id
       (ContextMenuNode.handleResizeStart data0 e0 (corner_name h) lm) moves s).
Proof.
  induction moves as [|e moves IH]; intros s data Hprops; [done|].
  cbn [ContextMenuNode.drag]. rewrite Hprops. cbv zeta.
  destruct (context_move_update id data data0 e0 h lm e) as (w & hh & Heq & _).
  rewrite !(Heq data (nodes s) s eq_refl). split; [by eexists|].
  apply (IH _ (NodeData.spread data (size_update w hh))).
  by apply props_data_update.
Qed.

(** X16. Every pointer move of a resize commits: from a cursor in range,
    after the move number [i] (counting from 0) of a drag on a node of the
    store, the log is exactly the entries up to the old cursor, kept as
    they were, followed by the documents of the moves 0 to [i], one entry
    per move in the order of the moves; the cursor is on the last entry,
    which is the document of that move. Both controllers behave so. *)
Theorem resize_commits_every_move
    (id : string) (data : NodeData.t) (e0 : MouseEvent) (h : Corner)
    (lp : PopoverNode.Local) (lm : ContextMenuNode.Local)
    (moves : list MouseEvent) (s : AppState) :
  props_data id (nodes s) = Some data →
  -1 ≤ historyIndex s < Z.of_nat (length (history s)) →
  let c := (PopoverNode.handleResizeStart data (nodes s) e0 (corner_name h) lp).1 in
  let l := ContextMenuNode.handleResizeStart data e0 (corner_name h) lm in
  (∀ i s', PopoverNode.drag id c moves s !! i = Some s' →
           history s' =
             take (Z.to_nat (historyIndex s + 1)) (history s)
               ++ (snapshot_of <$> take (S i) (PopoverNode.drag id c moves s)) ∧
           historyIndex s' = Z.of_nat (length (history s')) - 1 ∧
           Z.of_nat (length (history s')) = historyIndex s + 2 + Z.of_nat i ∧
           last (history s') = Some (Snapshot.mk (nodes s') (edges s'))) ∧
  (∀ i s', ContextMenuNode.drag id l moves s !! i = Some s' →
           history s' =
             take (Z.to_nat (historyIndex s + 1)) (history s)
               ++ (snapshot_of <$> take (S i) (ContextMenuNode.drag id l moves s)) ∧
           historyIndex s' = Z.of_nat (length (history s')) - 1 ∧
           Z.of_nat (length (history s')) = historyIndex s + 2 + Z.of_nat i ∧
           last (history s') = Some (Snapshot.mk (nodes s') (edges s'))).
Proof.
  intros Hprops Hr c l. split.
  - intros i s' Hi.
    destruct (commits_from_history _ s i s'
                (popover_drag_commits_from id data (nodes s) e0 h lp moves s) Hr Hi)
      as [Hh Hc].
    destruct (popover_drag_commits id data (nodes s) e0 h lp moves s i s' Hr Hi)
      as [Hlen Hlast].
    by split_and!.
  - intros i s' Hi.
    destruct (commits_from_history _ s i s'
                (context_drag_commits_from id data e0 h lm moves s data Hprops) Hr Hi)
      as [Hh Hc].
    destruct (context_drag_commits id data e0 h lm moves s data i s' Hprops Hr Hi)
      as [Hlen Hlast].
    by split_and!.
Qed.

Lemma resize_commits_every_move_witness :
  let s := saveToHistory Sample.with_circle in
  let e0 := {| clientX := 100; clientY := 100 |} in
  let l :=
    ContextMenuNode.handleResizeStart (Sample.plain "circle") e0
      (corner_name BottomRight) Sample.menu_idle in
  ∃ s', ContextMenuNode.drag "c1" l Sample.moves s !! 1%nat = Some s' ∧
        history s' =
          history s ++ (snapshot_of <$> ContextMenuNode.drag "c1" l Sample.moves s) ∧
        Z.of_nat (length (history s')) = 3.
Proof.
  intros s e0 l.
  destruct (resize_commits_every_move "c1" (Sample.plain "circle") e0 BottomRight
              Sample.popover_idle Sample.menu_idle Sample.moves s)
    as [_ Hm]; [reflexivity | by vm_compute |].
  eexists. split; [reflexivity|].
  destruct (Hm 1%nat _ eq_refl) as (Hh & _ & Hlen & _).
  split; [exact Hh|exact Hlen].
Defined.

(** What a move of the popover controller writes, for any closure. *)
Lemma popover_move_any id c e :
  ∃ u, ∀ s, PopoverNode.handleMouseMove id c e s
            = PopoverNode.updateNodeData id (PopoverNode.nodes c) u s.
Proof.
  unfold PopoverNode.handleMouseMove.
  repeat destruct (decide (PopoverNode.handle c = _)); cbv beta iota;
    destruct (decide (NodeData.nodeType (PopoverNode.data c) = "circle"));
    eexists; intros s; reflexivity.
Qed.

(** X17. A drag in the popover controller writes from the nodes captured
    when the resize started: after every move the store's nodes are those
    captured nodes, same ids in the same order, with every node of another
    id as captured; what the store held before the move plays no part, so
    two stores given the same drag end with the same nodes. *)
Theorem popover_drag_writes_captured_nodes
    (id : string) (c : PopoverNode.ResizeClosure) (moves : list MouseEvent)
    (s t : AppState) :
  nodes <$> PopoverNode.drag id c moves s = nodes <$> PopoverNode.drag id c moves t ∧
  Forall (λ s', Node.id <$> nodes s' = Node.id <$> PopoverNode.nodes c ∧
                ∀ i n, PopoverNode.nodes c !! i = Some n → Node.id n ≠ id →
                       nodes s' !! i = Some n)
         (PopoverNode.drag id c moves s).
Proof.
  split.
  - revert s t. induction moves as [|e moves IH]; intros s t; [done|].
    cbn [PopoverNode.drag]. destruct (popover_move_any id c e) as [u Hu].
    rewrite !Hu. cbn [fmap list_fmap]. f_equal. apply IH.
  - revert s. induction moves as [|e moves IH]; intros s; [constructor|].
    cbn [PopoverNode.drag]. destruct (popover_move_any id c e) as [u Hu].
    rewrite !Hu. constructor; [|apply IH].
    change (nodes (PopoverNode.updateNodeData id (PopoverNode.nodes c) u s))
      with (update_node id u <$> PopoverNode.nodes c).
    split; [apply fmap_update_node_ids|].
    intros i n Hn Hne. rewrite (fmap_update_node_lookup _ _ _ _ _ Hn).
    unfold update_node. by rewrite decide_False by done.
Qed.

Lemma update_node_twice id w1 h1 w2 h2 (n : Node.t) :
  update_node id (size_update w2 h2) (update_node id (size_update w1 h1) n)
  = update_node id (size_update w2 h2) n.
Proof.
  unfold update_node. destruct (decide (Node.id n = id)) as [Heq|Hne].
  - cbn [Node.with_data Node.id]. by rewrite decide_True by done.
  - by rewrite decide_False by done.
Qed.

Lemma default_last_cons {A} (l : list A) : ∀ x y : A,
  default x (last (y :: l)) = default y (last l).
Proof.
  induction l as [|z l IH]; intros x y; [done|].
  change (last (y :: z :: l)) with (last (z :: l)).
  by rewrite (IH x z), (IH y z).
Qed.

Lemma popover_drag_app id c m1 m2 s :
  PopoverNode.drag id c (m1 ++ m2) s =
    PopoverNode.drag id c m1 s
      ++ PopoverNode.drag id c m2 (default s (last (PopoverNode.drag id c m1 s))).
Proof.
  revert s. induction m1 as [|e m1 IH]; intros s; [done|].
  cbn [app PopoverNode.drag]. rewrite IH. cbn zeta.
  by rewrite default_last_cons.
Qed.

Lemma context_drag_app id l m1 m2 s :
  ContextMenuNode.drag id l (m1 ++ m2) s =
    ContextMenuNode.drag id l m1 s
      ++ ContextMenuNode.drag id l m2
           (default s (last (ContextMenuNode.drag id l m1 s))).
Proof.
  revert s. induction m1 as [|e m1 IH]; intros s; [done|].
  cbn [app ContextMenuNode.drag]. rewrite IH. cbn zeta.
  by rewrite default_last_cons.
Qed.

(** Along a drag of the context-menu controller the node keeps its node
    type, and the nodes differ from those at the start of the drag only in
    what the next size update overwrites. *)
Lemma context_drag_state id data0 e0 h lm moves : ∀ s data,
  props_data id (nodes s) = Some data →
  let sk :=
    default s (last (ContextMenuNode.drag id
      (ContextMenuNode.handleResizeStart data0 e0 (corner_name h) lm) moves s)) in
  ∃ dk, props_data id (nodes sk) = Some dk ∧
        NodeData.nodeType dk = NodeData.nodeType data ∧
        ∀ w hh, update_node id (size_update w hh) <$> nodes sk
                = update_node id (size_update w hh) <$> nodes s.
Proof.
  induction moves as [|e moves IH]; intros s data Hprops sk.
  - exists data. by split_and!.
  - subst sk. cbn [ContextMenuNode.drag]. rewrite Hprops. cbn zeta.
    rewrite default_last_cons.
    destruct (context_move_update id data data0 e0 h lm e) as (w1 & h1 & Heq & _).
    rewrite !(Heq data (nodes s) s eq_refl).
    destruct (IH (ContextMenuNode.updateNodeData id (nodes s) (size_update w1 h1) s)
                 (NodeData.spread data (size_update w1 h1)))
      as (dk & Hdk & Htype & Hnodes); [by apply props_data_update|].
    exists dk. split_and!; [exact Hdk|exact Htype|].
    intros w hh. rewrite Hnodes.
    change (nodes (ContextMenuNode.updateNodeData id (nodes s) (size_update w1 h1) s))
      with (update_node id (size_update w1 h1) <$> nodes s).
    rewrite <- list_fmap_compose. apply list_fmap_ext. intros i n _. cbn.
    apply update_node_twice.
Qed.

(** X18. The nodes a resize drag leaves depend on the last pointer
    position only, not on the path of the pointer: after any moves
    followed by a move [e], the store's nodes are those a single move [e]
    from the start of the drag would have left. Both controllers behave
    so. *)
Theorem resize_nodes_from_last_move
    (id : string) (data : NodeData.t) (e0 e : MouseEvent) (h : Corner)
    (lp : PopoverNode.Local) (lm : ContextMenuNode.Local)
    (moves : list MouseEvent) (s : AppState) :
  props_data id (nodes s) = Some data →
  let c := (PopoverNode.handleResizeStart data (nodes s) e0 (corner_name h) lp).1 in
  let l := ContextMenuNode.handleResizeStart data e0 (corner_name h) lm in
  last (nodes <$> PopoverNode.drag id c (moves ++ [e]) s)
    = Some (nodes (PopoverNode.handleMouseMove id c e s)) ∧
  last (nodes <$> ContextMenuNode.drag id l (moves ++ [e]) s)
    = Some (nodes (ContextMenuNode.handleResizeMove id data (nodes s) l e s)).
Proof.
  intros Hprops c l. split.
  - rewrite popover_drag_app, fmap_app. cbn [PopoverNode.drag fmap list_fmap].
    rewrite last_snoc. f_equal.
    destruct (popover_move_any id c e) as [u Hu]. by rewrite !Hu.
  - rewrite context_drag_app, fmap_app. cbn [ContextMenuNode.drag].
    destruct (context_drag_state id data e0 h lm moves s data Hprops)
      as (dk & Hdk & Htype & Hnodes).
    fold l in Hdk, Hnodes |- *. rewrite Hdk. cbn [fmap list_fmap].
    rewrite last_snoc. f_equal.
    destruct (context_move_update id data data e0 h lm e) as (w & hh & Heq & _).
    fold l in Heq. rewrite (Heq dk _ _ Htype), (Heq data _ _ eq_refl).
    apply Hnodes.
Qed.

Lemma resize_nodes_from_last_move_witness :
  let s := Sample.with_circle in
  let e0 := {| clientX := 100; clientY := 100 |} in
  let e := {| clientX := 90; clientY := 140 |} in
  let l :=
    ContextMenuNode.handleResizeStart (Sample.plain "circle") e0
      (corner_name BottomRight) Sample.menu_idle in
  last (nodes <$> ContextMenuNode.drag "c1" l (Sample.moves ++ [e]) s)
    = Some (nodes (ContextMenuNode.handleResizeMove "c1" (Sample.plain "circle")
                     (nodes s) l e s)).
Proof.
  intros s e0 e l.
  destruct (resize_nodes_from_last_move "c1" (Sample.plain "circle") e0 e BottomRight
              Sample.popover_idle Sample.menu_idle Sample.moves s)
    as [_ Hm]; [reflexivity|].
  exact Hm.
Defined.
End ResizeMoves.

(** ** Undoing a committed edit *)

Section UndoEdit.
Import Store History.

(** An edit that replaces the document and commits can be undone and
    redone: [undo] brings back the entry that was under the cursor, and
    [redo] the edit. *)
Lemma undo_after_commit (s : AppState) (ns : list Node.t) (es : list Edge.t) p :
  JS.index (history s) (historyIndex s) = Some p →
  let s1 := saveToHistory (set_nodes_edges ns es s) in
  ∃ s2, undo s1 = Ok s2 ∧
        nodes s2 = Snapshot.nodes p ∧ edges s2 = Snapshot.edges p ∧
        historyIndex s2 = historyIndex s ∧
        redo s2 = Ok s1.
Proof.
  intros Hp s1.
  assert (0 ≤ historyIndex s < Z.of_nat (length (history s))) as Hr.
  { unfold JS.index in Hp. destruct (Z.ltb_spec (historyIndex s) 0); [done|].
    apply lookup_lt_Some in Hp. lia. }
  assert (history s1 = take (Z.to_nat (historyIndex s + 1)) (history s)
                         ++ [Snapshot.mk ns es]) as Hh
    by (unfold s1; by rewrite saveToHistory_truncates by (cbn; lia)).
  assert (Z.of_nat (length (history s1)) = historyIndex s + 2) as Hlen.
  { rewrite Hh, length_app, length_take. cbn [length]. lia. }
  assert (historyIndex s1 = historyIndex s + 1) as Hi.
  { unfold s1 at 1. rewrite saveToHistory_cursor. fold s1. lia. }
  assert (history s1 !! Z.to_nat (historyIndex s) = Some p) as Hprev.
  { rewrite Hh, lookup_app_l by (rewrite length_take; lia).
    rewrite lookup_take_lt by lia.
    unfold JS.index in Hp. by destruct (Z.ltb_spec (historyIndex s) 0). }
  assert (history s1 !! Z.to_nat (historyIndex s + 1) = Some (Snapshot.mk ns es)) as Hnext.
  { rewrite Hh. apply list_lookup_middle. rewrite length_take. lia. }
  unfold undo. rewrite Hi.
  destruct (Z.ltb_spec 0 (historyIndex s + 1)); [|exfalso; lia].
  replace (historyIndex s + 1 - 1) with (historyIndex s) by lia.
  unfold JS.index at 1. destruct (Z.ltb_spec (historyIndex s) 0); [exfalso; lia|].
  rewrite Hprev. eexists. split; [done|]. split_and!; try done.
  unfold redo. cbn [set_document history historyIndex].
  destruct (Z.ltb_spec (historyIndex s) (Z.of_nat (length (history s1)) - 1));
    [|exfalso; lia].
  unfold JS.index. destruct (Z.ltb_spec (historyIndex s + 1) 0); [exfalso; lia|].
  rewrite Hnext. f_equal. rewrite <- Hi. by destruct s.
Qed.

(** X19. A deletion can be undone and redone: when the live document is
    the entry under the cursor, [undo] right after the store's
    [deleteNode] brings back the nodes and edges as they were before the
    deletion, the deleted node and its edges included, and [redo] after
    that returns the state the deletion left. *)
Theorem undo_restores_deleted_node (s : AppState) (nodeId : string) :
  JS.index (history s) (historyIndex s) = Some (Snapshot.mk (nodes s) (edges s)) →
  ∃ s2, undo (deleteNode nodeId s) = Ok s2 ∧
        nodes s2 = nodes s ∧ edges s2 = edges s ∧
        historyIndex s2 = historyIndex s ∧
        redo s2 = Ok (deleteNode nodeId s).
Proof.
  intros Hc. unfold deleteNode.
  by apply (undo_after_commit s _ _ (Snapshot.mk (nodes s) (edges s))).
Qed.

Lemma undo_restores_deleted_node_witness :
  ∃ s2, undo (deleteNode "n1" Sample.linked) = Ok s2 ∧
        nodes s2 = [Sample.n1; Sample.n2] ∧ edges s2 = [Sample.e1] ∧
        historyIndex s2 = 0 ∧
        redo s2 = Ok (deleteNode "n1" Sample.linked).
Proof. apply (undo_restores_deleted_node Sample.linked "n1"). reflexivity. Defined.
End UndoEdit.
